(** * Codon usage analyzer: the sequence pipeline of [main.py]

    A shallow embedding of the pure core of [main.py] -- [clean_sequence],
    [split_into_codons], [translate_codons], [count_codon_usage] and
    [calculate_gc_content] -- together with the Python primitives these
    functions are written with, and the properties the specification states
    about them. *)

From stdpp Require Import gmap strings list fin_maps sorting pretty.
From Stdlib Require Import ZArith Lia SpecFloat.

(** ** Python strings

    A Python [str] is a sequence of Unicode code points; [len] counts code
    points.  Code points are numbers, a string is a list of them. *)

Abbreviation codepoint := N (only parsing).
Abbreviation str := (list N) (only parsing).

(** A string literal of the source, written in ASCII. *)
Definition lit (s : string) : str :=
  Ascii.N_of_ascii <$> String.list_ascii_of_string s.

(** [c.upper()] for a code point of the Basic Latin block. *)
Definition ascii_upper (c : codepoint) : codepoint :=
  if ((97 <=? c) && (c <=? 122))%N then (c - 32)%N else c.

(** The part of the interpreter's Unicode database that [str.upper] reads:
    the full uppercase mapping of a code point, which may be several code
    points long.  The laws are those that Unicode's tables obey: Basic Latin
    is mapped letter by letter, an uppercased code point is not changed by
    uppercasing it again, and nothing but a space (a newline) uppercases to
    something that holds a space (a newline). *)
Class UnicodeData := {
  toupper : codepoint → str;
  toupper_ascii c : (c < 128)%N → toupper c = [ascii_upper c];
  toupper_fixed c d : d ∈ toupper c → toupper d = [d];
  toupper_space c : 32%N ∈ toupper c → c = 32%N;
  toupper_newline c : 10%N ∈ toupper c → c = 10%N
}.

(** Basic Latin and Latin-1 Supplement as Unicode has them (U+00B5 MICRO SIGN
    goes to U+039C, U+00DF SHARP S to "SS", U+00FF to U+0178, the other small
    letters of U+00E0..U+00FE but the division sign move down by 32); code
    points beyond U+00FF are left alone by this table. *)
Definition latin1_toupper (c : codepoint) : str :=
  if (c <? 128)%N then [ascii_upper c]
  else if (c =? 181)%N then [924%N]
  else if (c =? 223)%N then [83%N; 83%N]
  else if (c =? 255)%N then [376%N]
  else if ((224 <=? c) && (c <=? 254) && negb (c =? 247))%N then [(c - 32)%N]
  else [c].

Section Strings.
Context `{UnicodeData}.

(** [s.upper()] *)
Definition str_upper (s : str) : str := s ≫= toupper.

(** [s.replace(old, new)] where [old] is a string of one character. *)
Definition replace_char (old : codepoint) (new : str) (s : str) : str :=
  s ≫= (λ c, if decide (c = old) then new else [c]).
End Strings.

(** [s[i:j]] for indices [0 <= i <= j]; a slice stops at the end of [s]. *)
Definition slice {A} (s : list A) (i j : nat) : list A :=
  take (j - i) (drop i s).

(** [range(start, stop, step)] for a positive step. *)
Definition range (start stop step : nat) : list nat :=
  (λ k, start + k * step) <$> seq 0 ((stop - start + (step - 1)) / step).

(** ** The normalizer and the splitter *)

Section Normalizer.
Context `{UnicodeData}.

(** [seq = seq.upper().replace(" ", "").replace("\n", "")]
    [return seq[:len(seq) - (len(seq) % 3)]] *)
Definition clean_sequence (seq : str) : str :=
  let seq := replace_char 10%N [] (replace_char 32%N [] (str_upper seq)) in
  take (length seq - length seq `mod` 3) seq.

(** The value of [seq] after the first statement of [clean_sequence]: the
    uppercased input without its spaces and newlines, not yet trimmed. *)
Definition stripped (s : str) : str :=
  replace_char 10%N [] (replace_char 32%N [] (str_upper s)).

(** A character [c] of the input stays where it is, uppercased: whatever
    stands before and after it, the result (up to the trailing characters
    that trimming drops) is the cleaned text before, the character, and the
    cleaned text after. *)
Definition passes_through (c : codepoint) : Prop :=
  ∀ a b : str, ∃ tail : str,
    length tail < 3 ∧
    clean_sequence (a ++ [c] ++ b) ++ tail
      = stripped a ++ [ascii_upper c] ++ stripped b.
End Normalizer.

(** [return [seq[i:i+3] for i in range(0, len(seq), 3)]] *)
Definition split_into_codons (seq : str) : list str :=
  (λ i, slice seq i (i + 3)) <$> range 0 (length seq) 3.

(** ** Dictionaries

    A [dict] with string keys is a finite map.  A [defaultdict] carries, next
    to its items, the value its [default_factory] returns ([int()] is [0]);
    a plain [dict] has none. *)

Inductive exn := KeyError | ZeroDivisionError.

Record defaultdict (V : Type) := Dict {
  default_factory : option V;
  items : gmap (list N) V
}.
Arguments Dict {V} _ _.
Arguments default_factory {V} _.
Arguments items {V} _.

(** [d.get(key, dflt)] *)
Definition dict_get {V} (d : gmap (list N) V) (key : str) (dflt : V) : V :=
  default dflt (d !! key).

(** [d[key]]: a key that is missing is, when there is a factory, first
    stored with the factory's value ([__missing__]); otherwise the lookup
    raises [KeyError]. *)
Definition getitem {V} (d : defaultdict V) (key : str) : (exn + V) * defaultdict V :=
  match items d !! key with
  | Some v => (inr v, d)
  | None =>
      match default_factory d with
      | Some v0 => (inr v0, Dict (default_factory d) (<[key := v0]> (items d)))
      | None => (inl KeyError, d)
      end
  end.

(** [d[key] = v] *)
Definition setitem {V} (d : defaultdict V) (key : str) (v : V) : defaultdict V :=
  Dict (default_factory d) (<[key := v]> (items d)).

(** [sep.join(parts)] *)
Fixpoint str_join (sep : str) (parts : list str) : str :=
  match parts with
  | [] => []
  | [x] => x
  | x :: rest => x ++ sep ++ str_join sep rest
  end.

(** [s.count(c)] for a string [c] of one character. *)
Definition str_count (s : str) (c : codepoint) : nat :=
  length (filter (λ x, x = c) s).

(** ** Name tables of [main.py] *)

Definition AA_ABBREV : gmap (list N) (list N) :=
  list_to_map ((λ p, (lit p.1, lit p.2)) <$>
    [("A", "Ala"); ("R", "Arg"); ("N", "Asn"); ("D", "Asp"); ("C", "Cys");
     ("Q", "Gln"); ("E", "Glu"); ("G", "Gly"); ("H", "His"); ("I", "Ile");
     ("L", "Leu"); ("K", "Lys"); ("M", "Met"); ("F", "Phe"); ("P", "Pro");
     ("S", "Ser"); ("T", "Thr"); ("W", "Trp"); ("Y", "Tyr"); ("V", "Val");
     ("X", "???"); ("_", "Stop")]%string).

Definition AA_FULL : gmap (list N) (list N) :=
  list_to_map ((λ p, (lit p.1, lit p.2)) <$>
    [("A", "Alanine"); ("R", "Arginine"); ("N", "Asparagine");
     ("D", "Aspartic acid"); ("C", "Cysteine"); ("Q", "Glutamine");
     ("E", "Glutamic acid"); ("G", "Glycine"); ("H", "Histidine");
     ("I", "Isoleucine"); ("L", "Leucine"); ("K", "Lysine");
     ("M", "Methionine"); ("F", "Phenylalanine"); ("P", "Proline");
     ("S", "Serine"); ("T", "Threonine"); ("W", "Tryptophan");
     ("Y", "Tyrosine"); ("V", "Valine"); ("X", "Unknown"); ("_", "Stop")]%string).

(** Modelled from the spec: the module [codon_table] that [main.py] imports
    [CODON_TABLE] from.  The spec describes it as the standard codon table,
    a static mapping from every triplet over A/C/G/T (64 entries) to a
    single-letter amino-acid code or the stop marker; the marker is the key
    ['_'] that [AA_ABBREV] and [AA_FULL] name "Stop". *)
Module codon_table.
Definition CODON_TABLE : gmap (list N) (list N) :=
  list_to_map ((λ p, (lit p.1, lit p.2)) <$>
    [("TTT", "F"); ("TTC", "F"); ("TTA", "L"); ("TTG", "L");
     ("CTT", "L"); ("CTC", "L"); ("CTA", "L"); ("CTG", "L");
     ("ATT", "I"); ("ATC", "I"); ("ATA", "I"); ("ATG", "M");
     ("GTT", "V"); ("GTC", "V"); ("GTA", "V"); ("GTG", "V");
     ("TCT", "S"); ("TCC", "S"); ("TCA", "S"); ("TCG", "S");
     ("CCT", "P"); ("CCC", "P"); ("CCA", "P"); ("CCG", "P");
     ("ACT", "T"); ("ACC", "T"); ("ACA", "T"); ("ACG", "T");
     ("GCT", "A"); ("GCC", "A"); ("GCA", "A"); ("GCG", "A");
     ("TAT", "Y"); ("TAC", "Y"); ("TAA", "_"); ("TAG", "_");
     ("CAT", "H"); ("CAC", "H"); ("CAA", "Q"); ("CAG", "Q");
     ("AAT", "N"); ("AAC", "N"); ("AAA", "K"); ("AAG", "K");
     ("GAT", "D"); ("GAC", "D"); ("GAA", "E"); ("GAG", "E");
     ("TGT", "C"); ("TGC", "C"); ("TGA", "_"); ("TGG", "W");
     ("CGT", "R"); ("CGC", "R"); ("CGA", "R"); ("CGG", "R");
     ("AGT", "S"); ("AGC", "S"); ("AGA", "R"); ("AGG", "R");
     ("GGT", "G"); ("GGC", "G"); ("GGA", "G"); ("GGG", "G")]%string).
End codon_table.

(** The two markers of the protein alphabet. *)
Definition unknown_marker : str := lit "X".
Definition stop_marker : str := lit "_".

(** ** The translator and the frequency aggregator *)

Section Translator.
(** [from codon_table import CODON_TABLE]: the functions of [main.py] are
    written against whatever table the import binds. *)
Variable CODON_TABLE : gmap (list N) (list N).

(** [return ''.join([CODON_TABLE.get(codon, 'X') for codon in codons])] *)
Definition translate_codons (codons : list str) : str :=
  str_join [] ((λ codon, dict_get CODON_TABLE codon (lit "X")) <$> codons).
End Translator.

(** [codon_count[codon] += 1]: read the entry, then store it incremented. *)
Definition increment (codon_count : defaultdict Z) (codon : str)
    : exn + defaultdict Z :=
  match getitem codon_count codon with
  | (inr v, d) => inr (setitem d codon (v + 1)%Z)
  | (inl e, _) => inl e
  end.

(** [codon_count = defaultdict(int)]
    [for codon in codons: codon_count[codon] += 1]
    [return codon_count] *)
Definition count_codon_usage (codons : list str) : exn + defaultdict Z :=
  foldl (λ acc codon,
           match acc with
           | inr codon_count => increment codon_count codon
           | inl e => inl e
           end)
        (inr (Dict (Some 0%Z) ∅)) codons.

(** [codons.count(codon)] *)
Definition occurrences (codon : str) (codons : list str) : nat :=
  length (filter (λ x, x = codon) codons).

(** [sum(d.values())] *)
Definition dict_values_sum (d : gmap (list N) Z) : Z :=
  map_fold (λ _ v acc, (v + acc)%Z) 0%Z d.

(** ** Numbers

    A Python [int] is an integer.  A [float] is an IEEE 754 binary64 number;
    a finite one is [mant * 2 ^ expo], and the arithmetic rounds the exact
    result to the nearest double, ties to the even mantissa.  The numbers of
    this program stay between 0 and 100, so infinities and NaN are left out
    of the model. *)

Record float := Float { mant : Z; expo : Z }.

Inductive number := PyInt (z : Z) | PyFloat (x : float).

(** The integer nearest to [n / d] for [d > 0], ties to the even one. *)
Definition rint_even (n d : Z) : Z :=
  let q := (n / d)%Z in
  match (2 * (n mod d) ?= d)%Z with
  | Lt => q
  | Gt => (q + 1)%Z
  | Eq => if Z.even q then q else (q + 1)%Z
  end.

(** [floor (log2 (n / d))] for positive [n] and [d]. *)
Definition ilog2_ratio (n d : Z) : Z :=
  let e := (Z.log2 n - Z.log2 d)%Z in
  if (n * 2 ^ Z.max 0 (- e) <? d * 2 ^ Z.max 0 e)%Z then (e - 1)%Z else e.

(** The double nearest to the rational [n / d], [d > 0]: 53 bits of
    precision, so the unit in the last place of a number in
    [[2^e, 2^(e+1))] is [2^(e-52)], and never below [2^-1074]. *)
Definition round_b64 (n d : Z) : float :=
  if (n =? 0)%Z then Float 0 0
  else
    let ex := Z.max (ilog2_ratio (Z.abs n) d - 52) (-1074) in
    Float (rint_even (n * 2 ^ Z.max 0 (- ex)) (d * 2 ^ Z.max 0 ex)) ex.

(** [float(z)] *)
Definition float_of_int (z : Z) : float := round_b64 z 1.

(** [a / b] on integers: the correctly rounded quotient. *)
Definition int_truediv (a b : Z) : exn + float :=
  if (b =? 0)%Z then inl ZeroDivisionError
  else inr (round_b64 (a * Z.sgn b) (Z.abs b)).

(** [x * y] on floats. *)
Definition float_mul (x y : float) : float :=
  let e := (expo x + expo y)%Z in
  round_b64 (mant x * mant y * 2 ^ Z.max 0 e) (2 ^ Z.max 0 (- e)).

(** [round(x, ndigits)] for [ndigits >= 0]: the decimal with [ndigits]
    places nearest to the exact value of [x], ties to the even last digit,
    read back as a double. *)
Definition float_round (x : float) (ndigits : nat) : float :=
  let p := (10 ^ Z.of_nat ndigits)%Z in
  round_b64 (rint_even (mant x * p * 2 ^ Z.max 0 (expo x)) (2 ^ Z.max 0 (- expo x))) p.

(** Comparison of two floats by value. *)
Definition float_cmp (x y : float) : comparison :=
  let e := Z.min (expo x) (expo y) in
  (mant x * 2 ^ (expo x - e) ?= mant y * 2 ^ (expo y - e))%Z.

Definition float_le (x y : float) : Prop := float_cmp x y ≠ Gt.
Definition float_eq (x y : float) : Prop := float_cmp x y = Eq.

(** [x] is a multiple of a unit [2 ^ expo x] no greater than 1 and lies
    between 0 and the integer [B]. *)
Definition float_within (B : Z) (x : float) : Prop :=
  (expo x ≤ 0 ∧ 0 ≤ mant x ≤ B * 2 ^ (- expo x))%Z.

(** The same number in the Standard Library's specification of IEEE 754
    arithmetic, at the parameters of binary64; used to compare the rounding
    above with [SFdiv] and [SFmul]. *)
Definition to_spec (x : float) : spec_float :=
  binary_normalize 53 1024 (mant x) (expo x) false.

(** An integer in that specification. *)
Definition spec_of_int (z : Z) : spec_float :=
  binary_normalize 53 1024 z 0 false.

(** The fractions [a / b] for [0 <= a <= 12] and [1 <= b <= 12]. *)
Definition small_fractions : list (Z * Z) :=
  a ← Z.of_nat <$> seq 0 13; b ← Z.of_nat <$> seq 1 12; [(a, b)].

(** The value of a number as a float, to compare an [int] with a [float]. *)
Definition number_value (r : number) : float :=
  match r with
  | PyInt z => Float z 0
  | PyFloat x => x
  end.

(** ** The GC content calculator *)

(** [g = seq.count('G'); c = seq.count('C'); total = len(seq)]
    [if total == 0: return 0]
    [return round(((g+c)/total)*100, 2)] *)
Definition calculate_gc_content (seq : str) : exn + number :=
  let g := Z.of_nat (str_count seq 71%N) in
  let c := Z.of_nat (str_count seq 67%N) in
  let total := Z.of_nat (length seq) in
  if (total =? 0)%Z then inr (PyInt 0)
  else
    match int_truediv (g + c) total with
    | inr q => inr (PyFloat (float_round (float_mul q (float_of_int 100)) 2))
    | inl e => inl e
    end.

(** ** Sorting, keys and formatting

    [a < b] on strings compares code points from the left; a proper prefix
    is smaller.  [sorted] sorts with that order. *)

Fixpoint str_cmp (a b : str) : comparison :=
  match a, b with
  | [], [] => Eq
  | [], _ :: _ => Lt
  | _ :: _, [] => Gt
  | x :: a', y :: b' =>
      match (x ?= y)%N with
      | Eq => str_cmp a' b'
      | c => c
      end
  end.

Definition str_le (a b : str) : Prop := str_cmp a b ≠ Gt.
Definition str_lt (a b : str) : Prop := str_cmp a b = Lt.

#[export] Instance str_le_dec : RelDecision str_le :=
  λ a b, decide (str_cmp a b ≠ Gt).

(** [sorted(l)] *)
Definition sorted (l : list str) : list str := merge_sort str_le l.

(** [d.keys()], also what iterating over [d] yields.  The finite map does
    not keep the order of insertion; the source sorts the keys before every
    use, and sorting does not depend on the order it starts from. *)
Definition dict_keys {V} (d : defaultdict V) : list str :=
  (map_to_list (items d)).*1.

(** [str(z)] for an integer: its decimal digits, with a minus sign for a
    negative one. *)
Definition str_of_int (z : Z) : str := lit (pretty z).

(** [[d[key] for key in keys]]: the lookups run from left to right on the
    same dictionary; the first [KeyError] ends the comprehension. *)
Fixpoint getitems {V} (d : defaultdict V) (keys : list str)
    : (exn + list V) * defaultdict V :=
  match keys with
  | [] => (inr [], d)
  | key :: keys' =>
      match getitem d key with
      | (inr v, d') =>
          match getitems d' keys' with
          | (inr vs, d'') => (inr (v :: vs), d'')
          | (inl e, d'') => (inl e, d'')
          end
      | (inl e, d') => (inl e, d')
      end
  end.

(** [x + y] on floats. *)
Definition float_add (x y : float) : float :=
  let e := Z.min (expo x) (expo y) in
  let n := (mant x * 2 ^ (expo x - e) + mant y * 2 ^ (expo y - e))%Z in
  round_b64 (n * 2 ^ Z.max 0 e) (2 ^ Z.max 0 (- e)).

(** ** Labels *)

Section Labels.
Variable CODON_TABLE : gmap (list N) (list N).

(** [aa = CODON_TABLE.get(codon, 'X')]
    [if style == 'codon': return codon]
    [elif style == 'abbrev': return f"{codon} ({AA_ABBREV.get(aa, aa)})"]
    [elif style == 'full': return f"{codon} ({AA_FULL.get(aa, aa)})"]
    [else: return codon] *)
Definition get_codon_label (codon : str) (style : str) : str :=
  let aa := dict_get CODON_TABLE codon (lit "X") in
  if decide (style = lit "codon") then codon
  else if decide (style = lit "abbrev") then
    codon ++ lit " (" ++ dict_get AA_ABBREV aa aa ++ lit ")"
  else if decide (style = lit "full") then
    codon ++ lit " (" ++ dict_get AA_FULL aa aa ++ lit ")"
  else codon.
End Labels.

(** [style_map = {'1': 'codon', '2': 'abbrev', '3': 'full'}] of [main] *)
Definition style_map : gmap (list N) (list N) :=
  list_to_map ((λ p, (lit p.1, lit p.2)) <$>
    [("1", "codon"); ("2", "abbrev"); ("3", "full")]%string).

(** The colour of a codon's bar in [plot_codon_usage]:
    [if codon == 'ATG': 'green']
    [elif codon in ['TAA', 'TAG', 'TGA']: 'red']
    [else: 'skyblue'] *)
Definition bar_color (codon : str) : str :=
  if decide (codon = lit "ATG") then lit "green"
  else if decide (codon ∈ [lit "TAA"; lit "TAG"; lit "TGA"]) then lit "red"
  else lit "skyblue".

(** ** Input and output

    The functions that print, prompt, read files and draw act on a world:
    the lines still to be typed on standard input, the text files that can
    be opened (by name, with the text that [read()] returns), and the trace
    of what was written and drawn so far.  Of a call to [matplotlib] the
    trace keeps the positional arguments and the colours; keywords that only
    style the chart (font sizes, rotation, alignment) are not recorded. *)

Inductive plt_call :=
  | plt_figure (width height : Z)
  | plt_bar (labels : list (list N)) (frequencies : list Z)
      (color : list (list N)) (edgecolor : list N)
  | plt_text (x : Z) (y : float) (s : list N)
  | plt_grid
  | plt_xlabel (s : list N)
  | plt_ylabel (s : list N)
  | plt_title (s : list N)
  | plt_xticks
  | plt_yticks
  | plt_tight_layout
  | plt_savefig (path : list N)
  | plt_show.

Inductive event :=
  | Print (text : list N)
  | Prompt (text : list N)
  | Plt (call : plt_call).

Record world := World {
  stdin : list (list N);
  files : gmap (list N) (list N);
  trace : list event
}.


Definition emit (e : event) (w : world) : world :=
  World (stdin w) (files w) (trace w ++ [e]).

(** [print(text)] *)
Definition print (text : str) (w : world) : world := emit (Print text) w.




(** [print("\n... Codon Usage:")]
    [for codon in sorted(codon_count):]
    [  print(f"{codon}: {codon_count[codon]}")] *)
Definition print_codon_usage_table (codon_count : defaultdict Z) (w : world)
    : (exn + unit) * defaultdict Z * world :=
  let w := print ([10; 128202]%N ++ lit " Codon Usage:") w in
  foldl (λ (acc : (exn + unit) * defaultdict Z * world) codon,
           match acc with
           | (inr _, d, w) =>
               match getitem d codon with
               | (inr n, d') =>
                   (inr (), d', print (codon ++ lit ": " ++ str_of_int n) w)
               | (inl e, d') => (inl e, d', w)
               end
           | (inl e, d, w) => (inl e, d, w)
           end)
        (inr (), codon_count, w) (sorted (dict_keys codon_count)).

Section Plot.
Variable CODON_TABLE : gmap (list N) (list N).

(** [sorted_codons = sorted(codon_count.keys())]
    [frequencies = [codon_count[codon] for codon in sorted_codons]]
    [labels = [get_codon_label(codon, label_style) for codon in sorted_codons]]
    [colors = ...]
    [plt.figure(figsize=(16, 7)); plt.bar(labels, frequencies, color=colors, edgecolor='black')]
    [for i, freq in enumerate(frequencies): plt.text(i, freq + 0.1, str(freq), ...)]
    [plt.grid(...); plt.xlabel("Codons"); plt.ylabel("Frequency")]
    [plt.title("Codon Usage Frequency"); plt.xticks(...); plt.yticks(...)]
    [plt.tight_layout()]
    [if save_path: plt.savefig(save_path); print(f"... Graph saved as {save_path}")]
    [plt.show()] *)
Definition plot_codon_usage (codon_count : defaultdict Z) (label_style : str)
    (save_path : option str) (w : world)
    : (exn + unit) * defaultdict Z * world :=
  let sorted_codons := sorted (dict_keys codon_count) in
  match getitems codon_count sorted_codons with
  | (inl e, d) => (inl e, d, w)
  | (inr frequencies, d) =>
      let labels := (λ codon, get_codon_label CODON_TABLE codon label_style)
                      <$> sorted_codons in
      let colors := bar_color <$> sorted_codons in
      let w := emit (Plt (plt_figure 16 7)) w in
      let w := emit (Plt (plt_bar labels frequencies colors (lit "black"))) w in
      let w := foldl (λ w (ifreq : nat * Z),
                        emit (Plt (plt_text (Z.of_nat ifreq.1)
                                     (float_add (float_of_int ifreq.2) (round_b64 1 10))
                                     (str_of_int ifreq.2))) w)
                     w (imap pair frequencies) in
      let w := emit (Plt plt_grid) w in
      let w := emit (Plt (plt_xlabel (lit "Codons"))) w in
      let w := emit (Plt (plt_ylabel (lit "Frequency"))) w in
      let w := emit (Plt (plt_title (lit "Codon Usage Frequency"))) w in
      let w := emit (Plt plt_xticks) w in
      let w := emit (Plt plt_yticks) w in
      let w := emit (Plt plt_tight_layout) w in
      let w := match save_path with
               | Some (c :: rest) =>
                   print (9989%N :: lit " Graph saved as " ++ c :: rest)
                     (emit (Plt (plt_savefig (c :: rest))) w)
               | _ => w
               end in
      (inr (), d, emit (Plt plt_show) w)
  end.
End Plot.

(** The world after a run that only wrote the events [es]. *)
Definition emits (es : list event) (w : world) : world :=
  World (stdin w) (files w) (trace w ++ es).





(** What a trace holds of one kind: the bar charts drawn, the paths saved
    to, the texts printed. *)
Definition bar_call (e : event)
    : option (list (list N) * list Z * list (list N) * list N) :=
  match e with
  | Plt (plt_bar labels frequencies color edgecolor) =>
      Some (labels, frequencies, color, edgecolor)
  | _ => None
  end.



(** The line of [print_codon_usage_table] for a codon and its count. *)
Definition table_line (codon : str) (n : Z) : event :=
  Print (codon ++ lit ": " ++ str_of_int n).

(** ** The Latin-1 table is an instance of the database *)

Lemma latin1_toupper_ascii c : (c < 128)%N → latin1_toupper c = [ascii_upper c].
Proof.
  intros Hc. unfold latin1_toupper.
  destruct (N.ltb_spec c 128) as [_|?]; [done | lia].
Qed.

Ltac latin1_split :=
  unfold latin1_toupper, ascii_upper;
  repeat match goal with
  | |- context [N.ltb ?a ?b] => destruct (N.ltb_spec a b)
  | |- context [N.leb ?a ?b] => destruct (N.leb_spec a b)
  | |- context [N.eqb ?a ?b] => destruct (N.eqb_spec a b)
  end; simpl.

Lemma latin1_toupper_fixed c d : d ∈ latin1_toupper c → latin1_toupper d = [d].
Proof.
  unfold latin1_toupper at 1. unfold ascii_upper.
  repeat match goal with
  | |- context [N.ltb ?a ?b] => destruct (N.ltb_spec a b)
  | |- context [N.leb ?a ?b] => destruct (N.leb_spec a b)
  | |- context [N.eqb ?a ?b] => destruct (N.eqb_spec a b)
  end; simpl; intros Hd; set_unfold; destruct_or?; subst; try done;
  latin1_split; first [reflexivity | exfalso; lia].
Qed.

Lemma latin1_toupper_keeps (x c : codepoint) :
  (x < 65)%N → x ∈ latin1_toupper c → c = x.
Proof.
  intros Hx. latin1_split; intros Hd; set_unfold; destruct_or?; subst;
    try done; lia.
Qed.

#[export] Instance latin1_unicode : UnicodeData := {|
  toupper := latin1_toupper;
  toupper_ascii := latin1_toupper_ascii;
  toupper_fixed := latin1_toupper_fixed;
  toupper_space := λ c, latin1_toupper_keeps 32%N c eq_refl;
  toupper_newline := λ c, latin1_toupper_keeps 10%N c eq_refl
|}.

(** ** Strings: uppercase, replace, slices *)

Section StringFacts.
Context `{UnicodeData}.

Lemma replace_char_filter old (s : str) :
  replace_char old [] s = filter (λ c, c ≠ old) s.
Proof.
  unfold replace_char. induction s as [|c s IH]; [done|].
  rewrite bind_cons, IH, filter_cons.
  destruct (decide (c = old)), (decide (c ≠ old)); done.
Qed.

Lemma str_upper_app (s t : str) : str_upper (s ++ t) = str_upper s ++ str_upper t.
Proof. apply bind_app. Qed.

Lemma str_upper_ascii (s : str) :
  Forall (λ c, (c < 128)%N) s → str_upper s = ascii_upper <$> s.
Proof.
  unfold str_upper. induction 1 as [|c s Hc _ IH]; [done|].
  by rewrite bind_cons, IH, toupper_ascii.
Qed.

Lemma stripped_filter (s : str) :
  stripped s = filter (λ c, c ≠ 10%N) (filter (λ c, c ≠ 32%N) (str_upper s)).
Proof. unfold stripped. by rewrite !replace_char_filter. Qed.

Lemma clean_sequence_take (s : str) :
  clean_sequence s = take (length (stripped s) - length (stripped s) `mod` 3) (stripped s).
Proof. reflexivity. Qed.

Lemma stripped_length (s : str) : length (stripped s) ≤ length (str_upper s).
Proof.
  rewrite stripped_filter.
  etransitivity; [apply length_filter|apply length_filter].
Qed.

Lemma stripped_elem (s : str) d :
  d ∈ stripped s → d ≠ 10%N ∧ d ≠ 32%N ∧ ∃ c, c ∈ s ∧ d ∈ toupper c.
Proof.
  rewrite stripped_filter, !list_elem_of_filter. intros (? & ? & Hd).
  split; [done|]. split; [done|].
  unfold str_upper in Hd. apply list_elem_of_bind in Hd as (c & ? & ?). eauto.
Qed.

Lemma str_upper_fixed (s : str) :
  Forall (λ d, toupper d = [d]) s → str_upper s = s.
Proof.
  unfold str_upper. induction 1 as [|d s Hd _ IH]; [done|].
  by rewrite bind_cons, IH, Hd.
Qed.
End StringFacts.

Lemma trim_length_mod3 (n : nat) : (n - n `mod` 3) `mod` 3 = 0.
Proof.
  pose proof (Nat.div_mod_eq n 3) as E.
  replace (n - n `mod` 3) with (n `div` 3 * 3) by lia.
  apply Nat.Div0.mod_mul.
Qed.

Lemma clean_length_mod3 `{UnicodeData} (s : str) :
  length (clean_sequence s) `mod` 3 = 0.
Proof.
  rewrite clean_sequence_take, length_take.
  rewrite Nat.min_l by lia. apply trim_length_mod3.
Qed.

Lemma clean_sequence_prefix `{UnicodeData} (s : str) :
  ∃ tail, length tail < 3 ∧ stripped s = clean_sequence s ++ tail.
Proof.
  exists (drop (length (stripped s) - length (stripped s) `mod` 3) (stripped s)).
  split; [|by rewrite clean_sequence_take, take_drop].
  rewrite length_drop.
  pose proof (Nat.mod_upper_bound (length (stripped s)) 3). lia.
Qed.

(** On Basic Latin every database agrees with the Latin-1 table. *)
Lemma clean_sequence_ascii `{UnicodeData} (s : str) :
  Forall (λ c, (c < 128)%N) s →
  clean_sequence s = clean_sequence (H := latin1_unicode) s.
Proof.
  intros Hs. unfold clean_sequence.
  by rewrite (str_upper_ascii s Hs), (str_upper_ascii (H := latin1_unicode) s Hs).
Qed.

Lemma filter_Forall_id {A} (P : A → Prop) `{∀ x, Decision (P x)} (l : list A) :
  Forall P l → filter P l = l.
Proof.
  induction 1 as [|x l Hx _ IH]; [done|]. by rewrite filter_cons_True, IH.
Qed.

Section NormalizerFacts.
Context `{UnicodeData}.

Lemma stripped_app (s t : str) : stripped (s ++ t) = stripped s ++ stripped t.
Proof. by rewrite !stripped_filter, str_upper_app, !filter_app. Qed.

Lemma toupper_keeps_others c :
  c ≠ 32%N → c ≠ 10%N → Forall (λ d, d ≠ 10%N ∧ d ≠ 32%N) (toupper c).
Proof.
  intros H32 H10. apply Forall_forall. intros d Hd. split; intros ->.
  - by apply H10, toupper_newline.
  - by apply H32, toupper_space.
Qed.

Lemma stripped_char c :
  (c < 128)%N → c ≠ 32%N → c ≠ 10%N → stripped [c] = [ascii_upper c].
Proof.
  intros Hc H32 H10. rewrite stripped_filter, list_filter_filter.
  pose proof (toupper_keeps_others c H32 H10) as Hk.
  unfold str_upper. rewrite bind_singleton.
  rewrite toupper_ascii in * by done.
  by apply filter_Forall_id.
Qed.

(** Stripping after uppercasing removes the spaces and newlines of the
    input and nothing else. *)
Lemma stripped_input (s : str) :
  stripped s = str_upper (filter (λ c, c ≠ 32%N ∧ c ≠ 10%N) s).
Proof.
  rewrite stripped_filter, list_filter_filter. unfold str_upper.
  induction s as [|c s IH]; [done|].
  rewrite bind_cons, filter_app, IH, filter_cons.
  destruct (decide (c ≠ 32%N ∧ c ≠ 10%N)) as [[H32 H10]|Hn].
  - rewrite bind_cons. f_equal. apply filter_Forall_id.
    by apply toupper_keeps_others.
  - assert (c = 32%N ∨ c = 10%N) as [-> | ->]
      by (destruct (decide (c = 32%N)), (decide (c = 10%N)); naive_solver).
    + by rewrite toupper_ascii.
    + by rewrite toupper_ascii.
Qed.

Lemma ascii_passes_through c :
  (c < 128)%N → c ≠ 32%N → c ≠ 10%N → passes_through c.
Proof.
  intros Hc H32 H10 a b.
  destruct (clean_sequence_prefix (a ++ [c] ++ b)) as (tail & Hlen & E).
  exists tail. split; [done|].
  by rewrite <- E, !stripped_app, stripped_char.
Qed.

Lemma clean_sequence_elem (s : str) d :
  d ∈ clean_sequence s → d ∈ stripped s.
Proof.
  destruct (clean_sequence_prefix s) as (tail & _ & ->).
  set_solver.
Qed.

Lemma stripped_clean_sequence (s : str) :
  stripped (clean_sequence s) = clean_sequence s.
Proof.
  rewrite stripped_filter, list_filter_filter.
  rewrite str_upper_fixed.
  - apply filter_Forall_id, Forall_forall. intros d Hd.
    apply clean_sequence_elem, stripped_elem in Hd. tauto.
  - apply Forall_forall. intros d Hd.
    apply clean_sequence_elem, stripped_elem in Hd as (_ & _ & c & _ & Hd).
    by eapply toupper_fixed.
Qed.
End NormalizerFacts.

(** ** The normalizer: length, idempotence, what is removed *)

(** C1, as the code has it: for every input string [s],
    [clean_sequence s] has a length divisible by 3 that is at most the
    length of [s.upper()], hence at most [len(s)] whenever no character of
    [s] uppercases to more than one character; what is cut off are fewer
    than three characters at the end of the uppercased, space- and
    newline-free text; and cleaning "ATGCA" yields "ATG". *)
Theorem clean_sequence_length `{UnicodeData} (s : str) :
  length (clean_sequence s) `mod` 3 = 0
  ∧ length (clean_sequence s) ≤ length (str_upper s)
  ∧ (Forall (λ c, length (toupper c) ≤ 1) s →
       length (clean_sequence s) ≤ length s)
  ∧ (∃ tail, length tail < 3 ∧ stripped s = clean_sequence s ++ tail)
  ∧ clean_sequence (lit "ATGCA") = lit "ATG".
Proof.
  assert (length (clean_sequence s) ≤ length (str_upper s)) as Hup.
  { rewrite clean_sequence_take, length_take.
    pose proof (stripped_length s). lia. }
  split; [apply clean_length_mod3|].
  split; [done|]. split; [|split; [apply clean_sequence_prefix|]].
  - intros Hs. etransitivity; [exact Hup|]. clear Hup.
    unfold str_upper. induction Hs as [|c s Hc _ IH]; [done|].
    rewrite bind_cons, length_app. simpl. lia.
  - rewrite clean_sequence_ascii; [by vm_compute|].
    vm_compute. repeat constructor.
Qed.

Lemma clean_sequence_length_witness :
  Forall (λ c, length (toupper (UnicodeData := latin1_unicode) c) ≤ 1) (lit "atg ca")
  ∧ length (clean_sequence (H := latin1_unicode) (lit "atg ca")) ≤ length (lit "atg ca").
Proof.
  assert (Forall (λ c, length (toupper (UnicodeData := latin1_unicode) c) ≤ 1)
            (lit "atg ca")) as Hs
    by (vm_compute; repeat constructor).
  split; [exact Hs|].
  exact (proj1 (proj2 (proj2 (clean_sequence_length (lit "atg ca")))) Hs).
Defined.

(** C1 as stated fails: U+00DF uppercases to "SS", so an input of three sharp
    s is cleaned to six characters, more than the input has. *)
Lemma clean_sequence_longer_than_input :
  clean_sequence (H := latin1_unicode) [223; 223; 223]%N = lit "SSSSSS"
  ∧ ¬ (length (clean_sequence (H := latin1_unicode) [223; 223; 223]%N)
         ≤ length [223; 223; 223]%N).
Proof. split; [by vm_compute|]. vm_compute. lia. Qed.

(** C6: normalization is idempotent: for every string [s],
    [clean_sequence (clean_sequence s) = clean_sequence s]. *)
Theorem clean_sequence_idempotent `{UnicodeData} (s : str) :
  clean_sequence (clean_sequence s) = clean_sequence s.
Proof.
  rewrite (clean_sequence_take (clean_sequence s)), stripped_clean_sequence.
  rewrite clean_length_mod3, Nat.sub_0_r. apply firstn_all.
Qed.

(** C7: for every input string, [clean_sequence] uppercases and removes
    only the space and newline characters of the input (and then the trailing
    characters of the trim); tab and carriage return are kept where they are,
    and so are letters that are no bases, such as 'N' and 'Z': the function
    is total and returns a string for them. *)
Theorem clean_sequence_keeps_other_characters `{UnicodeData} (s : str) :
  (∃ tail, length tail < 3 ∧
     clean_sequence s ++ tail
       = str_upper (filter (λ c, c ≠ 32%N ∧ c ≠ 10%N) s))
  ∧ (32%N ∉ clean_sequence s) ∧ (10%N ∉ clean_sequence s)
  ∧ passes_through 9%N ∧ passes_through 13%N
  ∧ passes_through 78%N ∧ passes_through 90%N
  ∧ ascii_upper 9%N = 9%N ∧ ascii_upper 13%N = 13%N
  ∧ ascii_upper 78%N = 78%N ∧ ascii_upper 90%N = 90%N
  ∧ clean_sequence [97; 9; 13; 110; 32; 122; 10; 122]%N = [65; 9; 13; 78; 90; 90]%N.
Proof.
  split.
  { destruct (clean_sequence_prefix s) as (tail & Hlen & E).
    exists tail. split; [done|]. by rewrite <- E, stripped_input. }
  split; [intros Hd; apply clean_sequence_elem, stripped_elem in Hd; tauto|].
  split; [intros Hd; apply clean_sequence_elem, stripped_elem in Hd; tauto|].
  repeat (split; [by apply ascii_passes_through|]).
  repeat (split; [reflexivity|]).
  rewrite clean_sequence_ascii; [by vm_compute|].
  vm_compute. repeat constructor.
Qed.

(** ** The splitter *)

Lemma slice_3 {A} (s : list A) (i : nat) : slice s i (i + 3) = take 3 (drop i s).
Proof. unfold slice. f_equal. lia. Qed.

Lemma split_into_codons_chunks (s : str) :
  split_into_codons s
    = (λ k, take 3 (drop (3 * k) s)) <$> seq 0 ((length s + 2) `div` 3).
Proof.
  unfold split_into_codons, range. rewrite <- list_fmap_compose.
  replace (length s - 0 + (3 - 1)) with (length s + 2) by lia.
  apply list_fmap_ext. intros _ k _. simpl.
  rewrite slice_3. do 2 f_equal. lia.
Qed.

Lemma concat_chunks {A} (n : nat) (s : list A) :
  length s ≤ 3 * n →
  concat ((λ k, take 3 (drop (3 * k) s)) <$> seq 0 n) = s.
Proof.
  revert s. induction n as [|n IH]; intros s Hlen.
  - destruct s; [done | simpl in Hlen; lia].
  - rewrite <- cons_seq, <- fmap_S_seq, fmap_cons, <- list_fmap_compose.
    rewrite concat_cons, Nat.mul_0_r, drop_0.
    etransitivity; [|apply (take_drop 3 s)]. f_equal.
    etransitivity; [|apply (IH (drop 3 s)); rewrite length_drop; lia].
    f_equal. apply list_fmap_ext. intros _ k _. simpl.
    rewrite drop_drop. do 2 f_equal. lia.
Qed.

Lemma codon_count_exact (n : nat) : n `mod` 3 = 0 → (n + 2) `div` 3 = n `div` 3.
Proof.
  intros Hn. pose proof (Nat.div_mod_eq n 3) as E. rewrite Hn in E.
  rewrite E at 1. replace (3 * n `div` 3 + 0 + 2) with (2 + n `div` 3 * 3) by lia.
  rewrite Nat.div_add by done. done.
Qed.

(** C2: for every sequence [s] whose length [L] is a multiple of 3,
    [split_into_codons s] has exactly [L / 3] codons, each of exactly 3
    characters; the [k]-th codon is the slice [s[3k : 3k+3]], so the codons
    are contiguous, do not overlap and come in the order of [s]; their
    concatenation is [s]; and for [L = 0] the result is the empty list. *)
Theorem split_into_codons_partition (s : str) :
  length s `mod` 3 = 0 →
  length (split_into_codons s) = length s `div` 3
  ∧ Forall (λ codon, length codon = 3) (split_into_codons s)
  ∧ (∀ k, k < length s `div` 3 →
       split_into_codons s !! k = Some (slice s (3 * k) (3 * k + 3)))
  ∧ concat (split_into_codons s) = s
  ∧ (length s = 0 → split_into_codons s = []).
Proof.
  intros Hmod. rewrite split_into_codons_chunks, codon_count_exact by done.
  pose proof (Nat.div_mod_eq (length s) 3) as E. rewrite Hmod in E.
  split; [by rewrite length_fmap, length_seq|].
  split; [|split; [|split]].
  - apply Forall_fmap, Forall_forall. intros k Hk%elem_of_seq. simpl.
    rewrite length_take, length_drop. lia.
  - intros k Hk. rewrite list_lookup_fmap, lookup_seq_lt by done.
    simpl. by rewrite slice_3.
  - apply concat_chunks. lia.
  - intros ->. done.
Qed.

Lemma split_into_codons_partition_witness :
  length (lit "ATGAAATAG") `mod` 3 = 0
  ∧ split_into_codons (lit "ATGAAATAG") = [lit "ATG"; lit "AAA"; lit "TAG"]
  ∧ concat (split_into_codons (lit "ATGAAATAG")) = lit "ATGAAATAG".
Proof.
  split; [reflexivity|]. split; [reflexivity|].
  exact (proj1 (proj2 (proj2 (proj2
    (split_into_codons_partition (lit "ATGAAATAG") eq_refl))))).
Defined.

(** ** The translator *)

Lemma str_join_empty (parts : list str) : str_join [] parts = concat parts.
Proof.
  induction parts as [|x [|y rest] IH]; [done| |].
  - simpl. by rewrite app_nil_r.
  - change (str_join [] (x :: y :: rest)) with (x ++ [] ++ str_join [] (y :: rest)).
    by rewrite IH.
Qed.

Section TranslatorFacts.
Variable CODON_TABLE : gmap (list N) (list N).

Lemma translate_codons_concat (codons : list str) :
  translate_codons CODON_TABLE codons
    = concat ((λ codon, default unknown_marker (CODON_TABLE !! codon)) <$> codons).
Proof. unfold translate_codons. by rewrite str_join_empty. Qed.

Lemma translate_codons_app (xs ys : list str) :
  translate_codons CODON_TABLE (xs ++ ys)
    = translate_codons CODON_TABLE xs ++ translate_codons CODON_TABLE ys.
Proof. by rewrite !translate_codons_concat, fmap_app, concat_app. Qed.

Lemma translate_codons_absent (codon : str) :
  CODON_TABLE !! codon = None →
  translate_codons CODON_TABLE [codon] = unknown_marker.
Proof.
  intros E. rewrite translate_codons_concat. simpl. rewrite E. apply app_nil_r.
Qed.

Lemma translate_codons_present (codon aa : str) :
  CODON_TABLE !! codon = Some aa →
  translate_codons CODON_TABLE [codon] = aa.
Proof.
  intros E. rewrite translate_codons_concat. simpl. rewrite E. apply app_nil_r.
Qed.

Hypothesis single_letter : map_Forall (λ _ aa, length aa = 1) CODON_TABLE.

Lemma translate_codons_single (codon : str) :
  ∃ a, translate_codons CODON_TABLE [codon] = [a]
       ∧ (CODON_TABLE !! codon = None → a = 88%N).
Proof.
  destruct (CODON_TABLE !! codon) as [aa|] eqn:E.
  - rewrite (translate_codons_present _ _ E).
    pose proof (single_letter _ _ E) as Hlen. simpl in Hlen.
    destruct aa as [|a [|]]; try done. by exists a.
  - rewrite (translate_codons_absent _ E). by exists 88%N.
Qed.

Lemma translate_single_letters_length (codons : list str) :
  length (translate_codons CODON_TABLE codons) = length codons.
Proof.
  induction codons as [|codon codons IH]; [done|].
  change (codon :: codons) with ([codon] ++ codons).
  rewrite translate_codons_app, !length_app, IH.
  by destruct (translate_codons_single codon) as (a & -> & _).
Qed.
End TranslatorFacts.

(** The modelled table has its 64 entries, the triplets over A/C/G/T. *)
Example CODON_TABLE_size :
  size codon_table.CODON_TABLE = 64
  ∧ map_Forall (λ codon _, length codon = 3
                           ∧ Forall (λ b, b ∈ lit "ACGT") codon)
      codon_table.CODON_TABLE.
Proof. split; [by vm_compute|]. apply (bool_decide_unpack _). by vm_compute. Qed.

Lemma CODON_TABLE_single_letter :
  map_Forall (λ _ aa, length aa = 1) codon_table.CODON_TABLE.
Proof. apply (bool_decide_unpack _). by vm_compute. Qed.

(** C3: for every codon list, [translate_codons] returns (it is a total
    function: no lookup raises) a string with as many characters as there are
    codons, the concatenation, in codon order, of each codon's table entry or
    of the unknown marker when the table has no entry.  The table is the
    imported one; its entries are single letters. *)
Theorem translate_codons_length
    (CODON_TABLE : gmap (list N) (list N)) (codons : list str) :
  map_Forall (λ _ aa, length aa = 1) CODON_TABLE →
  length (translate_codons CODON_TABLE codons) = length codons
  ∧ translate_codons CODON_TABLE codons
      = concat ((λ codon, match CODON_TABLE !! codon with
                          | Some aa => aa
                          | None => unknown_marker
                          end) <$> codons).
Proof.
  intros Hsingle. split.
  - by apply translate_single_letters_length.
  - apply translate_codons_concat.
Qed.

Lemma translate_codons_length_witness :
  map_Forall (λ _ aa, length aa = 1) codon_table.CODON_TABLE
  ∧ length (translate_codons codon_table.CODON_TABLE
              [lit "ATG"; lit "AAA"; lit "TAG"; lit "NNN"]) = 4.
Proof.
  split; [exact CODON_TABLE_single_letter|].
  exact (proj1 (translate_codons_length codon_table.CODON_TABLE
                  [lit "ATG"; lit "AAA"; lit "TAG"; lit "NNN"]
                  CODON_TABLE_single_letter)).
Defined.

(** C8: a codon that the table does not have, such as "NNN", translates
    to the unknown marker and not to the stop marker; the stop codons TAA,
    TAG and TGA are in the table and translate to the stop marker, which is
    not the unknown marker and which no other codon has; no entry of the
    table is the unknown marker.  Nothing here is an error: the translation
    is a total function. *)
Theorem unknown_codon_is_not_stop :
  codon_table.CODON_TABLE !! lit "NNN" = None
  ∧ translate_codons codon_table.CODON_TABLE [lit "NNN"] = unknown_marker
  ∧ translate_codons codon_table.CODON_TABLE [lit "NNN"] ≠ stop_marker
  ∧ Forall (λ codon, codon_table.CODON_TABLE !! codon = Some stop_marker
                     ∧ translate_codons codon_table.CODON_TABLE [codon] = stop_marker)
           [lit "TAA"; lit "TAG"; lit "TGA"]
  ∧ stop_marker ≠ unknown_marker
  ∧ (∀ codon, codon_table.CODON_TABLE !! codon = None →
       translate_codons codon_table.CODON_TABLE [codon] = unknown_marker)
  ∧ map_Forall (λ codon aa,
       aa ≠ unknown_marker
       ∧ (aa = stop_marker → codon ∈ [lit "TAA"; lit "TAG"; lit "TGA"]))
     codon_table.CODON_TABLE.
Proof.
  split; [by vm_compute|]. split; [by vm_compute|]. split; [by vm_compute|].
  split; [repeat constructor; by vm_compute|].
  split; [by vm_compute|].
  split; [apply translate_codons_absent|].
  apply (bool_decide_unpack _). by vm_compute.
Qed.

(** C9: the marker that [translate_codons] puts for a codon absent from
    the table is the one character 'X'; it differs from '_', the key that the
    name tables [AA_ABBREV] and [AA_FULL] call "Stop"; and so, the table's
    entries being single letters, every codon adds exactly one character to
    the protein string, 'X' when the codon is unknown. *)
Theorem unknown_marker_is_X
    (CODON_TABLE : gmap (list N) (list N)) (before after : list str) (codon : str) :
  map_Forall (λ _ aa, length aa = 1) CODON_TABLE →
  (CODON_TABLE !! codon = None →
     translate_codons CODON_TABLE [codon] = [88%N])
  ∧ unknown_marker = [88%N] ∧ stop_marker = [95%N]
  ∧ unknown_marker ≠ stop_marker
  ∧ AA_ABBREV !! stop_marker = Some (lit "Stop")
  ∧ AA_FULL !! stop_marker = Some (lit "Stop")
  ∧ AA_ABBREV !! unknown_marker = Some (lit "???")
  ∧ AA_FULL !! unknown_marker = Some (lit "Unknown")
  ∧ ∃ a, translate_codons CODON_TABLE (before ++ codon :: after)
           = translate_codons CODON_TABLE before ++ [a]
               ++ translate_codons CODON_TABLE after
         ∧ (CODON_TABLE !! codon = None → a = 88%N).
Proof.
  intros Hsingle.
  split; [apply translate_codons_absent|].
  do 7 (split; [by vm_compute|]).
  destruct (translate_codons_single CODON_TABLE Hsingle codon) as (a & E & Ha).
  exists a. split; [|done].
  change (codon :: after) with ([codon] ++ after).
  by rewrite !translate_codons_app, E.
Qed.

Lemma unknown_marker_is_X_witness :
  map_Forall (λ _ aa, length aa = 1) codon_table.CODON_TABLE
  ∧ translate_codons codon_table.CODON_TABLE [lit "NNN"] = [88%N].
Proof.
  split; [exact CODON_TABLE_single_letter|].
  apply (proj1 (unknown_marker_is_X codon_table.CODON_TABLE
                  [lit "ATG"] [lit "TAG"] (lit "NNN")
                  CODON_TABLE_single_letter)).
  by vm_compute.
Defined.

(** ** The frequency aggregator *)

Lemma occurrences_snoc (k : str) (codons : list str) (c : str) :
  occurrences k (codons ++ [c])
    = occurrences k codons + (if decide (c = k) then 1 else 0).
Proof.
  unfold occurrences. rewrite filter_app, length_app, filter_cons, filter_nil.
  by case_decide.
Qed.

Lemma occurrences_zero (k : str) (codons : list str) :
  occurrences k codons = 0 ↔ k ∉ codons.
Proof.
  unfold occurrences. rewrite length_zero_iff_nil. split.
  - intros E Hk. eapply filter_nil_not_elem_of; [exact E| |exact Hk]. done.
  - intros Hk. induction codons as [|c codons IH]; [done|].
    rewrite not_elem_of_cons in Hk. destruct Hk as [Hne Hk].
    rewrite filter_cons_False by congruence. auto.
Qed.

Lemma dict_values_sum_insert (m : gmap (list N) Z) (k : str) (v : Z) :
  dict_values_sum (<[k := v]> m)
    = (v + dict_values_sum m - default 0 (m !! k))%Z.
Proof.
  unfold dict_values_sum. destruct (m !! k) as [x|] eqn:E; simpl.
  - rewrite <- (insert_delete_eq m k v).
    rewrite map_fold_insert_L; [|intros; lia|apply lookup_delete_eq].
    rewrite (map_fold_delete_L _ _ k x m); [lia|intros; lia|done].
  - rewrite map_fold_insert_L; [lia|intros; lia|done].
Qed.

Lemma count_codon_usage_snoc (codons : list str) (codon : str) :
  count_codon_usage (codons ++ [codon])
    = match count_codon_usage codons with
      | inr codon_count => increment codon_count codon
      | inl e => inl e
      end.
Proof. unfold count_codon_usage. by rewrite foldl_snoc. Qed.

Lemma increment_items (d : defaultdict Z) (codon : str) :
  default_factory d = Some 0%Z →
  increment d codon
    = inr (Dict (Some 0%Z) (<[codon := (default 0 (items d !! codon) + 1)%Z]> (items d))).
Proof.
  intros Hf. unfold increment, getitem, setitem.
  destruct (items d !! codon) as [v|]; simpl; rewrite Hf; simpl; [done|].
  by rewrite insert_insert_eq.
Qed.

Lemma count_codon_usage_spec (codons : list str) :
  ∃ d, count_codon_usage codons = inr d
       ∧ default_factory d = Some 0%Z
       ∧ (∀ k, items d !! k
               = if decide (occurrences k codons = 0) then None
                 else Some (Z.of_nat (occurrences k codons)))
       ∧ dict_values_sum (items d) = Z.of_nat (length codons).
Proof.
  induction codons as [|codon codons IH] using rev_ind.
  - exists (Dict (Some 0%Z) ∅). repeat split; try done.
  - destruct IH as (d & E & Hf & Hitems & Hsum).
    rewrite count_codon_usage_snoc, E, (increment_items d codon Hf).
    eexists. split; [done|]. simpl. split; [done|].
    assert (default 0%Z (items d !! codon) = Z.of_nat (occurrences codon codons))
      as Hcur by (rewrite Hitems; by case_decide as E0; [rewrite E0|]).
    split.
    + intros k. rewrite occurrences_snoc.
      destruct (decide (codon = k)) as [->|Hne].
      * rewrite lookup_insert_eq, Hcur.
        rewrite decide_False by lia. f_equal. lia.
      * rewrite lookup_insert_ne, Hitems, Nat.add_0_r by done. done.
    + rewrite dict_values_sum_insert, Hsum, Hcur, length_app. simpl. lia.
Qed.

(** C4: for every codon list, [count_codon_usage] returns a mapping that
    gives each codon occurring in the list its number of occurrences; every
    key present has a count of at least 1 and occurs in the list, a codon
    that does not occur is absent, and the counts add up to the number of
    codons. *)
Theorem count_codon_usage_counts (codons : list str) :
  ∃ codon_count,
    count_codon_usage codons = inr codon_count
    ∧ (∀ codon, codon ∈ codons →
         items codon_count !! codon = Some (Z.of_nat (occurrences codon codons)))
    ∧ (∀ codon n, items codon_count !! codon = Some n →
         (1 ≤ n)%Z ∧ codon ∈ codons)
    ∧ (∀ codon, codon ∉ codons → items codon_count !! codon = None)
    ∧ dict_values_sum (items codon_count) = Z.of_nat (length codons).
Proof.
  destruct (count_codon_usage_spec codons) as (d & E & _ & Hitems & Hsum).
  exists d. split; [done|]. split; [|split; [|split; [|done]]].
  - intros codon Hin. rewrite Hitems.
    case_decide as E0; [by apply occurrences_zero in E0|done].
  - intros codon n. rewrite Hitems.
    case_decide as E0; [done|]. intros [= <-]. split; [lia|].
    destruct (decide (codon ∈ codons)) as [|Hn]; [done|].
    by apply occurrences_zero in Hn.
  - intros codon Hn. rewrite Hitems.
    apply occurrences_zero in Hn. by rewrite decide_True.
Qed.

(** C10: the mapping that [count_codon_usage] returns is a
    [defaultdict(int)]: for every codon list and every queried codon the
    lookup [codon_count[codon]] returns a number, the count of the codon,
    which is 0 for a codon that never occurred; with the same items a
    dictionary without a default factory raises [KeyError] there. *)
Theorem count_codon_usage_default_zero (codons : list str) (codon : str) :
  ∃ codon_count,
    count_codon_usage codons = inr codon_count
    ∧ default_factory codon_count = Some 0%Z
    ∧ (getitem codon_count codon).1 = inr (Z.of_nat (occurrences codon codons))
    ∧ (codon ∉ codons →
         (getitem codon_count codon).1 = inr 0%Z
         ∧ (getitem (Dict None (items codon_count)) codon).1 = inl KeyError).
Proof.
  destruct (count_codon_usage_spec codons) as (d & E & Hf & Hitems & _).
  exists d. split; [done|]. split; [done|].
  assert ((getitem d codon).1 = inr (Z.of_nat (occurrences codon codons))) as Hget.
  { unfold getitem. rewrite Hitems, Hf.
    case_decide as E0; [by rewrite E0|done]. }
  split; [done|]. intros Hn. apply occurrences_zero in Hn.
  split; [by rewrite Hget, Hn|].
  unfold getitem. simpl. by rewrite Hitems, decide_True.
Qed.

(** ** Rounding stays within integer bounds *)

Section RoundingFacts.
Local Open Scope Z_scope.

Lemma rint_even_range (n d K : Z) :
0 < d → 0 ≤ n ≤ K * d → 0 ≤ rint_even n d ≤ K.
Proof.
intros Hd [Hn HK]. unfold rint_even.
pose proof (Z.div_mod n d ltac:(lia)) as E.
pose proof (Z.mod_pos_bound n d Hd) as Hr.
assert (0 ≤ n / d) by (apply Z.div_pos; lia).
assert (n / d ≤ K) by nia.
assert (0 < 2 * (n mod d) → n / d + 1 ≤ K) by nia.
destruct (Z.compare_spec (2 * (n mod d)) d); [destruct (Z.even _)| |]; lia.
Qed.

Lemma ilog2_ratio_upper (n d e : Z) :
0 < n → 0 < d → 0 ≤ e → n < d * 2 ^ (e + 1) → ilog2_ratio n d ≤ e.
Proof.
intros Hn Hd He Hlt. unfold ilog2_ratio.
pose proof (Z.log2_spec n Hn) as [Hn1 _].
pose proof (Z.log2_spec d Hd) as [_ Hd2].
pose proof (Z.log2_nonneg d) as Hld.
set (e0 := Z.log2 n - Z.log2 d) in *.
destruct (Z.ltb_spec (n * 2 ^ Z.max 0 (- e0)) (d * 2 ^ Z.max 0 e0)) as [_|Hge].
- destruct (Z_le_gt_dec (e0 - 1) e) as [|Hgt]; [done|exfalso].
  assert (2 ^ (e + 1) * 2 ^ Z.succ (Z.log2 d) ≤ 2 ^ Z.log2 n) as Hpow.
  { rewrite <- Z.pow_add_r by lia. apply Z.pow_le_mono_r; lia. }
  assert (0 < 2 ^ (e + 1)) by (apply Z.pow_pos_nonneg; lia).
  nia.
- destruct (Z_le_gt_dec e0 e) as [|Hgt]; [done|exfalso].
  rewrite (Z.max_l 0 (- e0)), (Z.max_r 0 e0), Z.pow_0_r in Hge by lia.
  assert (2 ^ (e + 1) ≤ 2 ^ e0) by (apply Z.pow_le_mono_r; lia).
  nia.
Qed.

Lemma round_b64_within (n d B : Z) :
0 < d → 0 ≤ n ≤ B * d → B < 2 ^ 53 → float_within B (round_b64 n d).
Proof.
intros Hd [Hn HB] HB53. unfold round_b64, float_within.
destruct (Z.eqb_spec n 0) as [->|Hn0]; simpl.
- nia.
- assert (ilog2_ratio (Z.abs n) d ≤ 52) as Hlog.
  { apply ilog2_ratio_upper; [lia..|]. change (52 + 1) with 53. nia. }
  set (ex := Z.max (ilog2_ratio (Z.abs n) d - 52) (-1074)) in *.
  assert (ex ≤ 0) as Hex by lia. split; [done|].
  rewrite Z.max_r, Z.max_l, Z.pow_0_r, Z.mul_1_r by lia.
  assert (0 < 2 ^ (- ex)) by (apply Z.pow_pos_nonneg; lia).
  apply rint_even_range; [done|]. nia.
Qed.

Lemma float_mul_within (x y : float) (Bx By : Z) :
float_within Bx x → float_within By y → Bx * By < 2 ^ 53 →
float_within (Bx * By) (float_mul x y).
Proof.
intros (Hex & Hx0 & Hx) (Hey & Hy0 & Hy) HB. unfold float_mul.
rewrite Z.max_l, Z.max_r, Z.pow_0_r, Z.mul_1_r by lia.
replace (- (expo x + expo y)) with (- expo x + - expo y) by lia.
rewrite Z.pow_add_r by lia.
assert (0 < 2 ^ (- expo x)) by (apply Z.pow_pos_nonneg; lia).
assert (0 < 2 ^ (- expo y)) by (apply Z.pow_pos_nonneg; lia).
apply round_b64_within; [nia| |done].
split; [nia|].
transitivity (Bx * 2 ^ (- expo x) * mant y); [nia|]. nia.
Qed.

Lemma float_round_within (x : float) (ndigits : nat) (B : Z) :
float_within B x → B < 2 ^ 53 → float_within B (float_round x ndigits).
Proof.
intros (Hex & Hx0 & Hx) HB. unfold float_round.
rewrite Z.max_l, Z.max_r, Z.pow_0_r, Z.mul_1_r by lia.
assert (0 < 10 ^ Z.of_nat ndigits) by (apply Z.pow_pos_nonneg; lia).
assert (0 < 2 ^ (- expo x)) by (apply Z.pow_pos_nonneg; lia).
apply round_b64_within; [done| |done].
rewrite (Z.mul_comm B). apply rint_even_range; [done|]. nia.
Qed.

Lemma float_within_le (x : float) (B : Z) :
float_within B x → float_le (Float 0 0) x ∧ float_le x (Float B 0).
Proof.
intros (Hex & Hx0 & Hx). unfold float_le, float_cmp. cbn [mant expo].
rewrite Z.min_r, Z.min_l by lia.
rewrite Z.sub_diag, Z.pow_0_r, Z.mul_1_r, Z.sub_0_l.
split; intros Hgt%Z.compare_gt_iff; lia.
Qed.

End RoundingFacts.

(** The rounding above is the one of the Standard Library's IEEE 754
    specification at precision 53 and maximal exponent 1024: quotients of
    small integers, the product by 100, and the scenario of the spec. *)
Example round_b64_is_SFdiv :
  (λ ab, to_spec (round_b64 ab.1 ab.2)) <$> small_fractions
  = (λ ab, SFdiv 53 1024 (spec_of_int ab.1) (spec_of_int ab.2)) <$> small_fractions.
Proof. by vm_compute. Qed.

Example float_mul_is_SFmul :
  (λ ab, to_spec (float_mul (round_b64 ab.1 ab.2) (float_of_int 100)))
    <$> small_fractions
  = (λ ab, SFmul 53 1024 (SFdiv 53 1024 (spec_of_int ab.1) (spec_of_int ab.2))
                         (spec_of_int 100)) <$> small_fractions.
Proof. by vm_compute. Qed.

(** [round(0.125, 2) == 0.12] and [round(0.375, 2) == 0.38]: ties go to the
    even digit; [round(2.675, 2) == 2.67], the double below 2.675. *)
Example float_round_ties :
  float_round (Float 1 (-3)) 2 = round_b64 12 100
  ∧ float_round (Float 3 (-3)) 2 = round_b64 38 100
  ∧ float_round (round_b64 2675 1000) 2 = round_b64 267 100.
Proof. by vm_compute. Qed.

Example gc_content_empty : calculate_gc_content [] = inr (PyInt 0).
Proof. reflexivity. Qed.

(** "GGGCCC" has GC content 100.0 *)
Example gc_content_all_GC :
  ∃ x, calculate_gc_content (lit "GGGCCC") = inr (PyFloat x)
       ∧ float_eq x (Float 100 0).
Proof. eexists. split; by vm_compute. Qed.

(** "ATGAAATAG" has two G and no C: 22.22, the double 0x1.63851eb851eb8p+4 *)
Example gc_content_scenario :
  calculate_gc_content (lit "ATGAAATAG")
  = inr (PyFloat (Float 6254373982510776 (-48)))
  ∧ Float 6254373982510776 (-48) = round_b64 2222 100.
Proof. by vm_compute. Qed.

(** A string without G and C has GC content 0.0, a float; the count is
    case-sensitive, so small letters are no G and no C. *)
Example gc_content_no_GC :
  calculate_gc_content (lit "AAA") = inr (PyFloat (Float 0 0))
  ∧ calculate_gc_content (lit "ggcc") = inr (PyFloat (Float 0 0)).
Proof. by vm_compute. Qed.

Lemma str_count_G_C (seq : str) :
  (str_count seq 71%N + str_count seq 67%N ≤ length seq)%nat.
Proof.
  unfold str_count. induction seq as [|x seq IH]; [done|].
  rewrite !filter_cons. simpl.
  destruct (decide (x = 71%N)), (decide (x = 67%N)); simpl; subst; lia.
Qed.

(** ** The GC content calculator *)

(** C5: for every string, [calculate_gc_content] returns (it does not
    raise: the division is guarded) the value of
    [round(((g+c)/len(seq))*100, 2)] in double precision, where [g] and [c]
    count the characters 'G' and 'C' of the string; the value lies between 0
    and 100; and the integer 0 is what is returned exactly when the string is
    empty. *)
Theorem calculate_gc_content_range (seq : str) :
  let g := Z.of_nat (length (filter (λ x, x = 71%N) seq)) in
  let c := Z.of_nat (length (filter (λ x, x = 67%N) seq)) in
  let total := Z.of_nat (length seq) in
  ∃ r, calculate_gc_content seq = inr r
       ∧ (r = PyInt 0 ↔ length seq = 0%nat)
       ∧ (length seq ≠ 0%nat →
            ∃ q, int_truediv (g + c) total = inr q
                 ∧ r = PyFloat (float_round (float_mul q (float_of_int 100)) 2))
       ∧ float_le (Float 0 0) (number_value r)
       ∧ float_le (number_value r) (Float 100 0).
Proof.
  intros g c total. unfold calculate_gc_content.
  fold (str_count seq 71%N) in g. fold (str_count seq 67%N) in c.
  fold g c total.
  destruct (Z.eqb_spec total 0) as [E0|Hne].
  - exists (PyInt 0). split; [done|]. split; [split; [lia|done]|].
    split; [lia|]. by vm_compute.
  - unfold int_truediv. destruct (Z.eqb_spec total 0) as [|_]; [done|].
    eexists. split; [done|]. split; [split; [done|lia]|].
    split; [intros _; eexists; by split|].
    apply float_within_le. simpl.
    apply float_round_within; [|done].
    change 100%Z with (1 * 100)%Z.
    apply float_mul_within; [| |done].
    + pose proof (str_count_G_C seq).
      replace (Z.sgn total) with 1%Z by lia. replace (Z.abs total) with total by lia.
      apply round_b64_within; [lia| |done]. lia.
    + apply round_b64_within; [lia| |done]. lia.
Qed.

(** ** The scenario of the specification, end to end *)

Example pipeline_scenario :
  let cleaned_seq := clean_sequence (H := latin1_unicode) (lit "atgAAA TAG") in
  let codons := split_into_codons cleaned_seq in
  cleaned_seq = lit "ATGAAATAG"
  ∧ codons = [lit "ATG"; lit "AAA"; lit "TAG"]
  ∧ translate_codons codon_table.CODON_TABLE codons = lit "MK_"
  ∧ (∃ d, count_codon_usage codons = inr d
          ∧ (items d !! lit "ATG", items d !! lit "AAA", items d !! lit "TAG")
              = (Some 1%Z, Some 1%Z, Some 1%Z)
          ∧ size (items d) = 3).
Proof.
  repeat split; try by vm_compute.
  eexists. split; [by vm_compute|]. split; by vm_compute.
Qed.

(** ** More on the normalizer, the splitter and the counters *)

Lemma filter_filter_same {A} (P : A → Prop) `{∀ x, Decision (P x)} (l : list A) :
  filter P (filter P l) = filter P l.
Proof.
  apply filter_Forall_id, Forall_forall. intros x Hx.
  by apply list_elem_of_filter in Hx as [? _].
Qed.

Lemma str_upper_idempotent `{UnicodeData} (s : str) :
  str_upper (str_upper s) = str_upper s.
Proof.
  apply str_upper_fixed, Forall_forall. intros d Hd.
  unfold str_upper in Hd. apply list_elem_of_bind in Hd as (c & Hd & _).
  by eapply toupper_fixed.
Qed.

(** X1: spaces and newlines do not count, wherever they stand: the
    input without them is cleaned to the same sequence, so a space or a
    newline put anywhere into the input changes nothing. *)
Theorem clean_sequence_ignores_blanks `{UnicodeData} (s a b : str) :
  clean_sequence (filter (λ c, c ≠ 32%N ∧ c ≠ 10%N) s) = clean_sequence s
  ∧ clean_sequence (a ++ 32%N :: b) = clean_sequence (a ++ b)
  ∧ clean_sequence (a ++ 10%N :: b) = clean_sequence (a ++ b).
Proof.
  assert (∀ t, clean_sequence (filter (λ c, c ≠ 32%N ∧ c ≠ 10%N) t)
               = clean_sequence t) as Hfilter.
  { intros t. by rewrite !clean_sequence_take, !stripped_input, filter_filter_same. }
  split; [apply Hfilter|].
  split.
  - rewrite <- (Hfilter (a ++ 32%N :: b)), <- (Hfilter (a ++ b)).
    rewrite !filter_app, filter_cons_False; [done|]. intros [? _]. done.
  - rewrite <- (Hfilter (a ++ 10%N :: b)), <- (Hfilter (a ++ b)).
    rewrite !filter_app, filter_cons_False; [done|]. intros [_ ?]. done.
Qed.

(** X2: the case of the input does not count: an input that is
    uppercased beforehand is cleaned to the same sequence. *)
Theorem clean_sequence_ignores_case `{UnicodeData} (s : str) :
  clean_sequence (str_upper s) = clean_sequence s.
Proof.
  rewrite !clean_sequence_take. unfold stripped.
  by rewrite str_upper_idempotent.
Qed.

(** X3: [split_into_codons] takes a sequence of any length: the codons
    always concatenate to the sequence, there are [ceil(L / 3)] of them, the
    [k]-th is the slice [s[3k : 3k+3]], none is empty, and only the last can
    be shorter than 3, holding the [L mod 3] characters that are left. *)
Theorem split_into_codons_any_length (s : str) :
  concat (split_into_codons s) = s
  ∧ length (split_into_codons s) = (length s + 2) `div` 3
  ∧ (∀ k codon, split_into_codons s !! k = Some codon →
       codon = slice s (3 * k) (3 * k + 3)
       ∧ 1 ≤ length codon ≤ 3
       ∧ (length codon < 3 →
            S k = length (split_into_codons s)
            ∧ length codon = length s `mod` 3)).
Proof.
  rewrite split_into_codons_chunks.
  pose proof (Nat.div_mod_eq (length s + 2) 3) as E.
  pose proof (Nat.mod_upper_bound (length s + 2) 3 ltac:(done)) as Hr.
  split; [apply concat_chunks; lia|].
  split; [by rewrite length_fmap, length_seq|].
  intros k codon Hk. rewrite length_fmap, length_seq.
  apply list_lookup_fmap_Some in Hk as (k' & -> & Hk').
  apply lookup_seq in Hk' as [-> Hlt]. rewrite Nat.add_0_l.
  split; [by rewrite slice_3|].
  rewrite length_take, length_drop.
  split; [lia|]. intros Hshort.
  pose proof (Nat.mod_unique (length s) 3 k (length s - 3 * k)
                ltac:(lia) ltac:(lia)) as Hm.
  lia.
Qed.

(** X4: the [i]-th character of the protein is the translation of
    the [i]-th codon, when the table's entries are single letters. *)
Theorem translate_codons_position
    (CODON_TABLE : gmap (list N) (list N)) (codons : list str) (i : nat) (codon : str) :
  map_Forall (λ _ aa, length aa = 1) CODON_TABLE →
  codons !! i = Some codon →
  ∃ a, translate_codons CODON_TABLE codons !! i = Some a
       ∧ translate_codons CODON_TABLE [codon] = [a].
Proof.
  intros Hsingle Hi.
  destruct (translate_codons_single CODON_TABLE Hsingle codon) as (a & Ea & _).
  exists a. split; [|done].
  rewrite <- (take_drop_middle codons i codon Hi).
  change (codon :: drop (S i) codons) with ([codon] ++ drop (S i) codons).
  rewrite !translate_codons_app, Ea.
  assert (length (translate_codons CODON_TABLE (take i codons)) = i) as Hlen.
  { rewrite translate_single_letters_length by done.
    rewrite length_take. apply lookup_lt_Some in Hi. lia. }
  rewrite lookup_app_r by lia. by rewrite Hlen, Nat.sub_diag.
Qed.

Lemma translate_codons_position_witness :
  map_Forall (λ _ aa, length aa = 1) codon_table.CODON_TABLE
  ∧ [lit "ATG"; lit "NNN"; lit "TAG"] !! 1 = Some (lit "NNN")
  ∧ ∃ a, translate_codons codon_table.CODON_TABLE
           [lit "ATG"; lit "NNN"; lit "TAG"] !! 1 = Some a
         ∧ translate_codons codon_table.CODON_TABLE [lit "NNN"] = [a].
Proof.
  split; [exact CODON_TABLE_single_letter|]. split; [reflexivity|].
  exact (translate_codons_position codon_table.CODON_TABLE
           [lit "ATG"; lit "NNN"; lit "TAG"] 1 (lit "NNN")
           CODON_TABLE_single_letter eq_refl).
Defined.

Lemma occurrences_Permutation (k : str) (codons codons' : list str) :
  codons ≡ₚ codons' → occurrences k codons = occurrences k codons'.
Proof. intros Hp. unfold occurrences. by rewrite Hp. Qed.

(** X5: the order of the codons does not count: two lists with the
    same codons in another order give the same mapping. *)
Theorem count_codon_usage_permutation (codons codons' : list str) :
  codons ≡ₚ codons' → count_codon_usage codons = count_codon_usage codons'.
Proof.
  intros Hp.
  destruct (count_codon_usage_spec codons) as ([f m] & -> & Hf & Hm & _).
  destruct (count_codon_usage_spec codons') as ([f' m'] & -> & Hf' & Hm' & _).
  simpl in *. subst f f'. do 2 f_equal. apply map_eq. intros k.
  by rewrite Hm, Hm', (occurrences_Permutation k _ _ Hp).
Qed.

Lemma count_codon_usage_permutation_witness :
  [lit "ATG"; lit "AAA"; lit "ATG"] ≡ₚ [lit "AAA"; lit "ATG"; lit "ATG"]
  ∧ count_codon_usage [lit "ATG"; lit "AAA"; lit "ATG"]
    = count_codon_usage [lit "AAA"; lit "ATG"; lit "ATG"].
Proof.
  assert ([lit "ATG"; lit "AAA"; lit "ATG"] ≡ₚ [lit "AAA"; lit "ATG"; lit "ATG"])
    as Hp by apply perm_swap.
  split; [exact Hp|]. exact (count_codon_usage_permutation _ _ Hp).
Defined.

(** ** More on the GC content *)

Lemma round_b64_same (n : Z) : (0 < n)%Z → round_b64 n n = Float (2 ^ 52) (-52).
Proof.
  intros Hn. unfold round_b64, ilog2_ratio.
  destruct (Z.eqb_spec n 0) as [|_]; [lia|].
  rewrite Z.abs_eq, Z.sub_diag by lia. change (Z.max 0 (- 0)) with 0%Z.
  change (Z.max 0 0) with 0%Z. rewrite Z.ltb_irrefl.
  change (Z.max (0 - 52) (-1074)) with (-52)%Z.
  change (Z.max 0 (- -52)) with 52%Z. change (Z.max 0 (-52)) with 0%Z.
  f_equal. unfold rint_even.
  rewrite Z.pow_0_r, Z.mul_1_r, (Z.mul_comm n), Z.mod_mul, Z.div_mul by lia.
  by destruct (Z.compare_spec (2 * 0) n); try lia.
Qed.

Lemma str_count_all_G_C (seq : str) :
  Forall (λ x, x = 71%N ∨ x = 67%N) seq →
  str_count seq 71%N + str_count seq 67%N = length seq.
Proof.
  unfold str_count. induction 1 as [|x seq Hx _ IH]; [done|].
  rewrite !filter_cons. simpl.
  destruct (decide (x = 71%N)), (decide (x = 67%N)); simpl; subst; try lia.
Qed.

Lemma str_count_none (seq : str) (c : N) :
  Forall (λ x, x ≠ c) seq → str_count seq c = 0.
Proof.
  unfold str_count. induction 1 as [|x seq Hx _ IH]; [done|].
  by rewrite filter_cons_False.
Qed.

(** X6: for a sequence that is not empty, the GC content is exactly
    100.0 when every character is 'G' or 'C', and exactly 0.0 when none
    is. *)
Theorem calculate_gc_content_extremes (seq : str) :
  seq ≠ [] →
  (Forall (λ x, x = 71%N ∨ x = 67%N) seq →
     calculate_gc_content seq = inr (PyFloat (float_of_int 100)))
  ∧ (Forall (λ x, x ≠ 71%N ∧ x ≠ 67%N) seq →
     calculate_gc_content seq = inr (PyFloat (Float 0 0))).
Proof.
  intros Hne.
  assert (Z.of_nat (length seq) ≠ 0%Z) as Hlen by (destruct seq; [done|simpl; lia]).
  unfold calculate_gc_content, int_truediv.
  destruct (Z.eqb_spec (Z.of_nat (length seq)) 0) as [|_]; [done|].
  split; intros Hall.
  - rewrite <- Nat2Z.inj_add, (str_count_all_G_C seq Hall).
    replace (Z.sgn (Z.of_nat (length seq))) with 1%Z by lia.
    rewrite Z.mul_1_r, Z.abs_eq, round_b64_same by lia.
    by vm_compute.
  - rewrite !str_count_none by (eapply Forall_impl; [exact Hall|]; simpl; tauto).
    by vm_compute.
Qed.

Lemma calculate_gc_content_extremes_witness :
  lit "GCCG" ≠ []
  ∧ Forall (λ x, x = 71%N ∨ x = 67%N) (lit "GCCG")
  ∧ calculate_gc_content (lit "GCCG") = inr (PyFloat (float_of_int 100)).
Proof.
  assert (lit "GCCG" ≠ []) as Hne by (vm_compute; discriminate).
  assert (Forall (λ x, x = 71%N ∨ x = 67%N) (lit "GCCG")) as Hall
    by (vm_compute; repeat constructor; auto).
  split; [exact Hne|]. split; [exact Hall|].
  exact (proj1 (calculate_gc_content_extremes (lit "GCCG") Hne) Hall).
Defined.

(** X7: the GC content depends on the characters only, not on their
    order. *)
Theorem calculate_gc_content_permutation (seq seq' : str) :
  seq ≡ₚ seq' → calculate_gc_content seq = calculate_gc_content seq'.
Proof.
  intros Hp. unfold calculate_gc_content.
  assert (∀ c, str_count seq c = str_count seq' c) as Hcount
    by (intros c; unfold str_count; by rewrite Hp).
  assert (length seq = length seq') as Hlen by (by rewrite Hp).
  by rewrite !Hcount, Hlen.
Qed.

Lemma calculate_gc_content_permutation_witness :
  lit "GA" ≡ₚ lit "AG"
  ∧ calculate_gc_content (lit "GA") = calculate_gc_content (lit "AG").
Proof.
  assert (lit "GA" ≡ₚ lit "AG") as Hp by (vm_compute; apply perm_swap).
  split; [exact Hp|]. exact (calculate_gc_content_permutation _ _ Hp).
Defined.

(** ** The order of strings and [sorted] *)

Lemma str_cmp_refl (a : str) : str_cmp a a = Eq.
Proof. induction a as [|x a IH]; simpl; [done|]. by rewrite N.compare_refl. Qed.

Lemma str_cmp_eq (a b : str) : str_cmp a b = Eq → a = b.
Proof.
  revert b. induction a as [|x a IH]; intros [|y b]; simpl; try done.
  destruct (N.compare_spec x y); try done. intros ?%IH. by subst.
Qed.

Lemma str_cmp_opp (a b : str) : str_cmp b a = CompOpp (str_cmp a b).
Proof.
  revert b. induction a as [|x a IH]; intros [|y b]; simpl; try done.
  rewrite (N.compare_antisym x y). destruct (x ?= y)%N; simpl; auto.
Qed.

Lemma str_cmp_lt_trans (a b c : str) :
  str_cmp a b = Lt → str_cmp b c = Lt → str_cmp a c = Lt.
Proof.
  revert b c. induction a as [|x a IH]; intros [|y b] [|z c]; simpl; try done.
  destruct (N.compare_spec x y), (N.compare_spec y z), (N.compare_spec x z);
    subst; try done; try lia; eauto.
Qed.

#[export] Instance str_le_total : Total str_le.
Proof.
  intros a b. unfold str_le. rewrite (str_cmp_opp a b).
  destruct (str_cmp a b); simpl; auto.
Qed.

#[export] Instance str_le_antisymm : AntiSymm (=) str_le.
Proof.
  intros a b. unfold str_le. rewrite (str_cmp_opp a b).
  destruct (str_cmp a b) eqn:E; simpl; try done.
  intros _ _. by apply str_cmp_eq.
Qed.

#[export] Instance str_le_transitive : Transitive str_le.
Proof.
  intros a b c. unfold str_le.
  destruct (str_cmp a b) eqn:Eab; [|intros _|done].
  - by apply str_cmp_eq in Eab as ->.
  - destruct (str_cmp b c) eqn:Ebc; [|intros _|done].
    + apply str_cmp_eq in Ebc as ->. by rewrite Eab.
    + by rewrite (str_cmp_lt_trans a b c).
Qed.

Lemma sorted_StronglySorted (l : list str) : StronglySorted str_le (sorted l).
Proof. apply StronglySorted_merge_sort; apply _. Qed.

Lemma sorted_Permutation (l : list str) : sorted l ≡ₚ l.
Proof. apply merge_sort_Permutation. Qed.

Lemma sorted_order_independent (l l' : list str) : l ≡ₚ l' → sorted l = sorted l'.
Proof.
  intros Hp. apply (StronglySorted_unique str_le);
    [apply sorted_StronglySorted..|].
  by rewrite !sorted_Permutation.
Qed.

Lemma StronglySorted_NoDup_lt (l : list str) :
  StronglySorted str_le l → NoDup l → StronglySorted str_lt l.
Proof.
  induction 1 as [|x l Hl IH Hx]; intros Hnd; [constructor|].
  apply NoDup_cons in Hnd as [Hx' Hnd]. constructor; [auto|].
  apply Forall_forall. intros y Hy. rewrite Forall_forall in Hx.
  specialize (Hx y Hy). unfold str_le, str_lt in *.
  destruct (str_cmp x y) eqn:E; try done.
  apply str_cmp_eq in E as ->. done.
Qed.

Lemma elem_of_dict_keys {V} (d : defaultdict V) (k : str) :
  k ∈ dict_keys d ↔ is_Some (items d !! k).
Proof.
  unfold dict_keys. rewrite list_elem_of_fmap. split.
  - intros ([k' v] & -> & Hkv). apply elem_of_map_to_list in Hkv. by exists v.
  - intros [v Hv]. exists (k, v). split; [done|]. by apply elem_of_map_to_list.
Qed.

Lemma sorted_keys_spec {V} (d : defaultdict V) :
  StronglySorted str_lt (sorted (dict_keys d))
  ∧ NoDup (sorted (dict_keys d))
  ∧ (∀ k, k ∈ sorted (dict_keys d) ↔ is_Some (items d !! k))
  ∧ length (sorted (dict_keys d)) = size (items d).
Proof.
  assert (NoDup (sorted (dict_keys d))) as Hnd.
  { rewrite sorted_Permutation. apply NoDup_fst_map_to_list. }
  split; [by apply StronglySorted_NoDup_lt; [apply sorted_StronglySorted|]|].
  split; [done|]. split.
  - intros k. by rewrite sorted_Permutation, elem_of_dict_keys.
  - rewrite sorted_Permutation. unfold dict_keys.
    by rewrite length_fmap, length_map_to_list.
Qed.

(** ** Labels *)

Lemma dict_get_Some {V} (d : gmap (list N) V) (key : str) (dflt v : V) :
  d !! key = Some v → dict_get d key dflt = v.
Proof. intros E. unfold dict_get. by rewrite E. Qed.

Lemma dict_get_None {V} (d : gmap (list N) V) (key : str) (dflt : V) :
  d !! key = None → dict_get d key dflt = dflt.
Proof. intros E. unfold dict_get. by rewrite E. Qed.

Section LabelFacts.
Variable CODON_TABLE : gmap (list N) (list N).

Lemma get_codon_label_codon (codon : str) :
  get_codon_label CODON_TABLE codon (lit "codon") = codon.
Proof. unfold get_codon_label. by rewrite decide_True. Qed.

Lemma get_codon_label_abbrev (codon : str) :
  get_codon_label CODON_TABLE codon (lit "abbrev")
  = codon ++ lit " ("
      ++ dict_get AA_ABBREV (dict_get CODON_TABLE codon (lit "X"))
           (dict_get CODON_TABLE codon (lit "X"))
      ++ lit ")".
Proof.
  unfold get_codon_label.
  rewrite decide_False by (vm_compute; discriminate).
  by rewrite decide_True.
Qed.

Lemma get_codon_label_full (codon : str) :
  get_codon_label CODON_TABLE codon (lit "full")
  = codon ++ lit " ("
      ++ dict_get AA_FULL (dict_get CODON_TABLE codon (lit "X"))
           (dict_get CODON_TABLE codon (lit "X"))
      ++ lit ")".
Proof.
  unfold get_codon_label.
  rewrite decide_False by (vm_compute; discriminate).
  rewrite decide_False by (vm_compute; discriminate).
  by rewrite decide_True.
Qed.

Lemma get_codon_label_other (codon style : str) :
  style ≠ lit "abbrev" → style ≠ lit "full" →
  get_codon_label CODON_TABLE codon style = codon.
Proof.
  intros Ha Hf. unfold get_codon_label.
  destruct (decide (style = lit "codon")); [done|].
  by rewrite !decide_False.
Qed.
End LabelFacts.

(** X8: whatever the table and the style, the label of a codon begins
    with the codon; for the styles 'abbrev' and 'full' a name in parentheses
    follows after a space, and for every other style, known or not, the
    label is the codon alone. *)
Theorem get_codon_label_starts_with_codon
    (CODON_TABLE : gmap (list N) (list N)) (codon style : str) :
  ∃ suffix,
    get_codon_label CODON_TABLE codon style = codon ++ suffix
    ∧ (style ≠ lit "abbrev" → style ≠ lit "full" → suffix = [])
    ∧ (style = lit "abbrev" ∨ style = lit "full" →
         ∃ name, suffix = lit " (" ++ name ++ lit ")").
Proof.
  destruct (decide (style = lit "abbrev")) as [->|Ha].
  { rewrite get_codon_label_abbrev. eexists. split; [done|].
    split; [done|]. intros _. by eexists. }
  destruct (decide (style = lit "full")) as [->|Hf].
  { rewrite get_codon_label_full. eexists. split; [done|].
    split; [done|]. intros _. by eexists. }
  rewrite get_codon_label_other by done.
  exists []. rewrite app_nil_r. split; [done|]. split; [done|].
  by intros [?|?].
Qed.

(** X9: a codon that the table does not have is labelled with "???"
    in the style 'abbrev' and with "Unknown" in the style 'full'. *)
Theorem get_codon_label_unknown
    (CODON_TABLE : gmap (list N) (list N)) (codon : str) :
  CODON_TABLE !! codon = None →
  get_codon_label CODON_TABLE codon (lit "abbrev") = codon ++ lit " (???)"
  ∧ get_codon_label CODON_TABLE codon (lit "full") = codon ++ lit " (Unknown)".
Proof.
  intros E. rewrite get_codon_label_abbrev, get_codon_label_full.
  rewrite (dict_get_None _ _ _ E).
  split; f_equal; by vm_compute.
Qed.

Lemma get_codon_label_unknown_witness :
  codon_table.CODON_TABLE !! lit "NNN" = None
  ∧ get_codon_label codon_table.CODON_TABLE (lit "NNN") (lit "abbrev")
    = lit "NNN" ++ lit " (???)".
Proof.
  assert (codon_table.CODON_TABLE !! lit "NNN" = None) as E by (by vm_compute).
  split; [exact E|].
  exact (proj1 (get_codon_label_unknown codon_table.CODON_TABLE (lit "NNN") E)).
Defined.

(** X10: an amino-acid symbol of the table that the name tables do
    not have is no error: the label shows the symbol itself. *)
Theorem get_codon_label_unnamed_symbol
    (CODON_TABLE : gmap (list N) (list N)) (codon aa : str) :
  CODON_TABLE !! codon = Some aa →
  (AA_ABBREV !! aa = None →
     get_codon_label CODON_TABLE codon (lit "abbrev")
     = codon ++ lit " (" ++ aa ++ lit ")")
  ∧ (AA_FULL !! aa = None →
     get_codon_label CODON_TABLE codon (lit "full")
     = codon ++ lit " (" ++ aa ++ lit ")").
Proof.
  intros E. rewrite get_codon_label_abbrev, get_codon_label_full.
  rewrite (dict_get_Some _ _ _ _ E).
  split; intros En; by rewrite (dict_get_None _ _ _ En).
Qed.

Lemma get_codon_label_unnamed_symbol_witness :
  ({[lit "AAA" := lit "B"]} : gmap (list N) (list N)) !! lit "AAA" = Some (lit "B")
  ∧ AA_ABBREV !! lit "B" = None
  ∧ get_codon_label {[lit "AAA" := lit "B"]} (lit "AAA") (lit "abbrev")
    = lit "AAA" ++ lit " (" ++ lit "B" ++ lit ")".
Proof.
  assert (({[lit "AAA" := lit "B"]} : gmap (list N) (list N)) !! lit "AAA"
          = Some (lit "B")) as E by (by vm_compute).
  assert (AA_ABBREV !! lit "B" = None) as Ea by (by vm_compute).
  split; [exact E|]. split; [exact Ea|].
  exact (proj1 (get_codon_label_unnamed_symbol _ (lit "AAA") (lit "B") E) Ea).
Defined.

Lemma style_map_lookup (choice style : str) :
  style_map !! choice = Some style →
  (choice = lit "1" ∧ style = lit "codon")
  ∨ (choice = lit "2" ∧ style = lit "abbrev")
  ∨ (choice = lit "3" ∧ style = lit "full").
Proof.
  intros E. apply elem_of_list_to_map_2 in E.
  apply list_elem_of_fmap in E as ([a b] & Eq & Hin).
  cbn [fst snd] in Eq.
  apply elem_of_cons in Hin as [Eab|Hin];
    [inversion Eab; subst; left; by inversion Eq|].
  apply elem_of_cons in Hin as [Eab|Hin];
    [inversion Eab; subst; right; left; by inversion Eq|].
  apply elem_of_cons in Hin as [Eab|Hin];
    [inversion Eab; subst; right; right; by inversion Eq|].
  by apply elem_of_nil in Hin.
Qed.

(** X11: the answer to "Enter 1, 2, or 3" selects the style through
    [style_map.get(label_choice, 'codon')]: any answer but "2" and "3", the
    empty one too, gives labels that are the bare codons. *)
Theorem label_choice_defaults_to_codon
    (CODON_TABLE : gmap (list N) (list N)) (codon label_choice : str) :
  label_choice ≠ lit "2" → label_choice ≠ lit "3" →
  get_codon_label CODON_TABLE codon (dict_get style_map label_choice (lit "codon"))
  = codon.
Proof.
  intros H2 H3.
  destruct (style_map !! label_choice) as [style|] eqn:E.
  - rewrite (dict_get_Some _ _ _ _ E).
    apply style_map_lookup in E as [[_ ->]|[[-> _]|[-> _]]];
      [apply get_codon_label_codon|done|done].
  - rewrite (dict_get_None _ _ _ E). apply get_codon_label_codon.
Qed.

Lemma label_choice_defaults_to_codon_witness :
  lit "7" ≠ lit "2" ∧ lit "7" ≠ lit "3"
  ∧ get_codon_label codon_table.CODON_TABLE (lit "ATG")
      (dict_get style_map (lit "7") (lit "codon")) = lit "ATG".
Proof.
  assert (lit "7" ≠ lit "2") as H2 by (vm_compute; discriminate).
  assert (lit "7" ≠ lit "3") as H3 by (vm_compute; discriminate).
  split; [exact H2|]. split; [exact H3|].
  exact (label_choice_defaults_to_codon codon_table.CODON_TABLE (lit "ATG")
           (lit "7") H2 H3).
Defined.

(** ** Loading the sequence *)


(** ** Reading a dictionary by its own keys *)

Lemma getitem_present {V} (d : defaultdict V) (k : str) (v : V) :
  items d !! k = Some v → getitem d k = (inr v, d).
Proof. intros E. unfold getitem. by rewrite E. Qed.


Lemma sorted_keys_present {V} (d : defaultdict V) :
  Forall (λ k, is_Some (items d !! k)) (sorted (dict_keys d)).
Proof.
  apply Forall_forall. intros k Hk.
  by apply (proj1 (proj2 (proj2 (sorted_keys_spec d)))).
Qed.

Lemma emits_emits (es1 es2 : list event) (w : world) :
  emits es2 (emits es1 w) = emits (es1 ++ es2) w.
Proof. unfold emits. cbn [stdin files trace]. by rewrite app_assoc. Qed.

Lemma emit_emits (e : event) (w : world) : emit e w = emits [e] w.
Proof. reflexivity. Qed.

Lemma emits_nil (w : world) : emits [] w = w.
Proof. destruct w. unfold emits. cbn [stdin files trace]. by rewrite app_nil_r. Qed.


Lemma print_loop (d : defaultdict Z) (keys : list str) (w : world) :
  Forall (λ k, is_Some (items d !! k)) keys →
  foldl (λ (acc : (exn + unit) * defaultdict Z * world) codon,
           match acc with
           | (inr _, d, w) =>
               match getitem d codon with
               | (inr n, d') =>
                   (inr (), d', print (codon ++ lit ": " ++ str_of_int n) w)
               | (inl e, d') => (inl e, d', w)
               end
           | (inl e, d, w) => (inl e, d, w)
           end)
        (inr (), d, w) keys
  = (inr (), d,
     emits ((λ k, table_line k (dict_get (items d) k 0%Z)) <$> keys) w).
Proof.
  intros Hkeys. revert w. induction Hkeys as [|k keys [v Hv] _ IH]; intros w.
  - by rewrite emits_nil.
  - cbn [foldl]. rewrite (getitem_present d k v Hv), IH.
    unfold print. rewrite emit_emits, emits_emits.
    by rewrite fmap_cons, (dict_get_Some _ _ _ _ Hv).
Qed.

Lemma print_codon_usage_table_trace (d : defaultdict Z) (w : world) :
  print_codon_usage_table d w
  = (inr (), d,
     emits (Print ([10; 128202]%N ++ lit " Codon Usage:")
              :: ((λ k, table_line k (dict_get (items d) k 0%Z))
                    <$> sorted (dict_keys d))) w).
Proof.
  unfold print_codon_usage_table.
  rewrite print_loop by apply sorted_keys_present.
  unfold print. by rewrite emit_emits, emits_emits.
Qed.

Section PlotFacts.
Variable CODON_TABLE : gmap (list N) (list N).

End PlotFacts.

(** ** The printed table *)


Lemma count_codon_usage_keys (codons : list str) (d : defaultdict Z) :
  count_codon_usage codons = inr d →
  (∀ k, is_Some (items d !! k) ↔ k ∈ codons)
  ∧ (∀ k, k ∈ codons →
       dict_get (items d) k 0%Z = Z.of_nat (occurrences k codons))
  ∧ length (sorted (dict_keys d)) = length (remove_dups codons).
Proof.
  intros E.
  destruct (count_codon_usage_spec codons) as (d' & E' & _ & Hitems & _).
  rewrite E in E'. injection E' as <-.
  assert (∀ k, is_Some (items d !! k) ↔ k ∈ codons) as Hkeys.
  { intros k. rewrite Hitems. case_decide as E0.
    - apply occurrences_zero in E0. split; [by intros [? ?]|done].
    - split; [intros _|by eexists].
      destruct (decide (k ∈ codons)) as [|Hn]; [done|].
      by apply occurrences_zero in Hn. }
  split; [done|]. split.
  - intros k Hk. unfold dict_get. rewrite Hitems.
    case_decide as E0; [by apply occurrences_zero in E0|done].
  - destruct (sorted_keys_spec d) as (_ & Hnd & Hin & _).
    apply Permutation_length, NoDup_Permutation;
      [done|apply NoDup_remove_dups|].
    intros k. by rewrite Hin, Hkeys, elem_of_remove_dups.
Qed.

(** X14: printing the table of the counts of a codon list writes the
    heading and as many lines as the list has distinct codons, among them,
    for every codon of the list, the line with its number of occurrences. *)
Theorem print_codon_usage_table_of_counts (codons : list str) (w : world) :
  ∃ codon_count w',
    count_codon_usage codons = inr codon_count
    ∧ print_codon_usage_table codon_count w = (inr (), codon_count, w')
    ∧ length (trace w') = length (trace w) + 1 + length (remove_dups codons)
    ∧ (∀ codon, codon ∈ codons →
         Print (codon ++ lit ": "
                  ++ str_of_int (Z.of_nat (occurrences codon codons)))
         ∈ trace w').
Proof.
  destruct (count_codon_usage_spec codons) as (d & E & _).
  destruct (count_codon_usage_keys codons d E) as (Hkeys & Hget & Hlen).
  exists d. eexists. split; [done|].
  split; [apply print_codon_usage_table_trace|].
  unfold emits. cbn [trace]. split.
  - rewrite length_app, length_cons, length_fmap, Hlen. lia.
  - intros codon Hin. apply elem_of_app. right. apply elem_of_cons. right.
    apply list_elem_of_fmap. exists codon. unfold table_line.
    rewrite (Hget codon Hin). split; [done|].
    apply (proj1 (proj2 (proj2 (sorted_keys_spec d)))). by apply Hkeys.
Qed.

(** ** The chart *)



Section ChartFacts.
Variable CODON_TABLE : gmap (list N) (list N).



End ChartFacts.










(** ** The steps of [main] put together *)

Lemma split_into_codons_full (s : str) :
  length s `mod` 3 = 0 →
  concat (split_into_codons s) = s
  ∧ length (split_into_codons s) = length s `div` 3
  ∧ Forall (λ codon, length codon = 3) (split_into_codons s).
Proof.
  intros Hmod. rewrite split_into_codons_chunks, codon_count_exact by done.
  pose proof (Nat.div_mod_eq (length s) 3) as E. rewrite Hmod in E.
  split; [apply concat_chunks; lia|].
  split; [by rewrite length_fmap, length_seq|].
  apply Forall_fmap, Forall_forall. intros k Hk%elem_of_seq. simpl.
  rewrite length_take, length_drop. lia.
Qed.

(** X19: whatever text is entered, the codons that [main] obtains
    from the cleaned sequence all have exactly 3 characters, none of them a
    space or a newline; they concatenate to the cleaned sequence; and the
    counts of [count_codon_usage] have keys of 3 characters only and add up
    to a third of the length of the cleaned sequence. *)
Theorem pipeline_codons `{UnicodeData} (seq : str) :
  let cleaned_seq := clean_sequence seq in
  let codons := split_into_codons cleaned_seq in
  concat codons = cleaned_seq
  ∧ length codons = length cleaned_seq `div` 3
  ∧ Forall (λ codon, length codon = 3 ∧ (32%N ∉ codon) ∧ (10%N ∉ codon)) codons
  ∧ ∃ codon_count,
      count_codon_usage codons = inr codon_count
      ∧ (∀ codon, is_Some (items codon_count !! codon) → length codon = 3)
      ∧ dict_values_sum (items codon_count)
        = Z.of_nat (length cleaned_seq `div` 3).
Proof.
  intros cleaned_seq codons.
  destruct (split_into_codons_full cleaned_seq (clean_length_mod3 seq))
    as (Hconcat & Hlen & Hthree).
  fold codons in Hconcat, Hlen, Hthree.
  split; [done|]. split; [done|].
  assert (∀ c, c ∈ cleaned_seq → c ≠ 32%N ∧ c ≠ 10%N) as Hblank.
  { intros c Hc. apply clean_sequence_elem, stripped_elem in Hc. tauto. }
  split.
  - rewrite Forall_forall in Hthree. apply Forall_forall. intros codon Hcodon.
    split; [by apply Hthree|].
    assert (∀ c, c ∈ codon → c ∈ cleaned_seq) as Hsub.
    { intros c Hc. rewrite <- Hconcat. apply list_elem_of_In, in_concat.
      exists codon. split; by apply list_elem_of_In. }
    split; intros Hc; apply Hsub, Hblank in Hc; tauto.
  - destruct (count_codon_usage_spec codons) as (d & E & _ & _ & Hsum).
    destruct (count_codon_usage_keys codons d E) as (Hkeys & _).
    exists d. split; [done|]. split; [|by rewrite Hsum, Hlen].
    intros codon Hcodon%Hkeys. rewrite Forall_forall in Hthree. by apply Hthree.
Qed.

(** X20: with a table of single letters the protein that [main]
    prints has one character for every three of the cleaned sequence. *)
Theorem pipeline_protein_length `{UnicodeData}
    (CODON_TABLE : gmap (list N) (list N)) (seq : str) :
  map_Forall (λ _ aa, length aa = 1) CODON_TABLE →
  3 * length (translate_codons CODON_TABLE
                (split_into_codons (clean_sequence seq)))
  = length (clean_sequence seq).
Proof.
  intros Hsingle. rewrite translate_single_letters_length by done.
  destruct (split_into_codons_full _ (clean_length_mod3 seq)) as (_ & -> & _).
  pose proof (Nat.div_mod_eq (length (clean_sequence seq)) 3) as E.
  rewrite clean_length_mod3 in E. lia.
Qed.

Lemma pipeline_protein_length_witness :
  map_Forall (λ _ aa, length aa = 1) codon_table.CODON_TABLE
  ∧ 3 * length (translate_codons codon_table.CODON_TABLE
                  (split_into_codons
                     (clean_sequence (H := latin1_unicode) (lit "atg aaa tag c"))))
    = length (clean_sequence (H := latin1_unicode) (lit "atg aaa tag c")).
Proof.
  split; [exact CODON_TABLE_single_letter|].
  exact (pipeline_protein_length (H := latin1_unicode) codon_table.CODON_TABLE
           (lit "atg aaa tag c") CODON_TABLE_single_letter).
Defined.

Lemma str_upper_below_a `{UnicodeData} (s : str) :
  Forall (λ c, (c < 97)%N) s → str_upper s = s.
Proof.
  intros Hs. apply str_upper_fixed. eapply Forall_impl; [exact Hs|].
  intros c Hc. cbv beta in Hc. rewrite toupper_ascii by lia. unfold ascii_upper.
  destruct (N.leb_spec 97 c); [lia|done].
Qed.

(** X21: [main] prints [protein.upper()]; when the entries of the
    table hold no character from 'a' on (capital letters and '_', as in the
    name tables), that is the protein itself. *)
Theorem protein_upper_is_protein `{UnicodeData}
    (CODON_TABLE : gmap (list N) (list N)) (codons : list str) :
  map_Forall (λ _ aa, Forall (λ c, (c < 97)%N) aa) CODON_TABLE →
  str_upper (translate_codons CODON_TABLE codons)
  = translate_codons CODON_TABLE codons.
Proof.
  intros Hcaps. apply str_upper_below_a.
  rewrite translate_codons_concat. apply Forall_concat, Forall_fmap, Forall_forall.
  intros codon _. simpl.
  destruct (CODON_TABLE !! codon) as [aa|] eqn:E; simpl.
  - exact (Hcaps codon aa E).
  - by vm_compute; repeat constructor.
Qed.

Lemma CODON_TABLE_capitals :
  map_Forall (λ _ aa, Forall (λ c, (c < 97)%N) aa) codon_table.CODON_TABLE.
Proof. apply (bool_decide_unpack _). by vm_compute. Qed.

Lemma protein_upper_is_protein_witness :
  map_Forall (λ _ aa, Forall (λ c, (c < 97)%N) aa) codon_table.CODON_TABLE
  ∧ str_upper (H := latin1_unicode)
      (translate_codons codon_table.CODON_TABLE [lit "ATG"; lit "TAA"; lit "NNN"])
    = translate_codons codon_table.CODON_TABLE [lit "ATG"; lit "TAA"; lit "NNN"].
Proof.
  split; [exact CODON_TABLE_capitals|].
  exact (protein_upper_is_protein (H := latin1_unicode) codon_table.CODON_TABLE
           [lit "ATG"; lit "TAA"; lit "NNN"] CODON_TABLE_capitals).
Defined.

Lemma clean_sequence_empty `{UnicodeData} (seq : str) :
  clean_sequence seq = [] ↔ length (stripped seq) < 3.
Proof.
  rewrite <- length_zero_iff_nil, clean_sequence_take, length_take.
  pose proof (Nat.div_mod_eq (length (stripped seq)) 3) as E.
  pose proof (Nat.mod_upper_bound (length (stripped seq)) 3 ltac:(done)).
  lia.
Qed.

(** X22: the GC content of the cleaned sequence is the integer 0
    exactly when the input has fewer than 3 characters besides spaces and
    newlines; then the cleaned sequence is empty, there is no codon, the
    protein is empty and the mapping of counts has no key. *)
Theorem short_input_degrades `{UnicodeData}
    (CODON_TABLE : gmap (list N) (list N)) (seq : str) :
  (calculate_gc_content (clean_sequence seq) = inr (PyInt 0)
     ↔ length (stripped seq) < 3)
  ∧ (length (stripped seq) < 3 →
       clean_sequence seq = []
       ∧ split_into_codons (clean_sequence seq) = []
       ∧ translate_codons CODON_TABLE (split_into_codons (clean_sequence seq)) = []
       ∧ count_codon_usage (split_into_codons (clean_sequence seq))
         = inr (Dict (Some 0%Z) ∅)).
Proof.
  split.
  - rewrite <- clean_sequence_empty. unfold calculate_gc_content, int_truediv.
    destruct (clean_sequence seq) as [|c s]; [done|].
    destruct (Z.eqb_spec (Z.of_nat (length (c :: s))) 0) as [E0|_];
      [simpl in E0; lia|].
    destruct (Z.eqb_spec (Z.of_nat (length (c :: s))) 0) as [E0|_];
      [simpl in E0; lia|].
    split; [intros [=]|done].
  - intros Hshort. apply clean_sequence_empty in Hshort. by rewrite Hshort.
Qed.

(** ** The scenario, printed and drawn *)

(** The sum [freq + 0.1] of the annotations is the one of the Standard
    Library's IEEE 754 specification. *)
Example float_add_is_SFadd :
  (λ n, to_spec (float_add (float_of_int n) (round_b64 1 10)))
    <$> (Z.of_nat <$> seq 0 40)
  = (λ n, SFadd 53 1024 (spec_of_int n)
            (SFdiv 53 1024 (spec_of_int 1) (spec_of_int 10)))
    <$> (Z.of_nat <$> seq 0 40).
Proof. by vm_compute. Qed.

Example print_scenario :
  ∃ d, count_codon_usage (split_into_codons (lit "ATGAAATAGATG")) = inr d
       ∧ (print_codon_usage_table d (World [] ∅ [])).2
         = World [] ∅
             [Print ([10; 128202]%N ++ lit " Codon Usage:");
              Print (lit "AAA: 1"); Print (lit "ATG: 2"); Print (lit "TAG: 1")].
Proof. eexists. split; by vm_compute. Qed.

Example plot_scenario :
  match count_codon_usage (split_into_codons (lit "ATGAAATAGATG")) with
  | inr d =>
      omap bar_call
        (trace (plot_codon_usage codon_table.CODON_TABLE d (lit "abbrev")
                  (Some (lit "usage.png")) (World [] ∅ [])).2)
  | inl _ => []
  end
  = [([lit "AAA (Lys)"; lit "ATG (Met)"; lit "TAG (Stop)"],
      [1; 2; 1]%Z,
      [lit "skyblue"; lit "green"; lit "red"],
      lit "black")].
Proof. vm_compute. reflexivity. Qed.
